(** * csv-json-tool: the CSV to JSON conversion pipeline of [src/App.jsx]

    A shallow embedding of the pure part of the application: the tolerant
    tokenizer [parseCSV], the structural delimiter detector
    [detectDelimiterByStructure], the classifier [looksLikeJSON] /
    [isAttributeValue] / [maybeMapOfAVs], the DynamoDB unmarshaller
    [unmarshallDeep], the type inferrer [coerceDeep] and the row-to-record
    converter [convertRowsToObjects].

    Conventions of the embedding.
    - A JavaScript string is a [string]; one [ascii] stands for one code
      unit, so the model covers texts whose code units are below 256.
    - A JavaScript number is a binary64 value, a [spec_float] handled with
      the operations of the Standard Library at precision 53 and maximal
      exponent 1024.
    - A plain object is the list of its own enumerable properties in the
      order [Object.keys] reports them; [obj_set] is the assignment
      [out[k] = v] on such a list.  Prototypes are not modelled: the key
      [__proto__] is treated like any other key. *)

From Stdlib Require Import Bool Arith ZArith List Ascii String Lia.
From Stdlib Require Import Floats.SpecFloat.
Import ListNotations.
Local Open Scope string_scope.
Local Open Scope list_scope.
Local Open Scope nat_scope.

(** String concatenation, written apart from list concatenation. *)
Infix "+++" := String.append (right associativity, at level 60).

(* ================================================================== *)
(** * Part I.  The model                                               *)
(* ================================================================== *)

(** ** Characters and strings of the runtime *)

Definition DQUOTE : ascii := "034"%char.
Definition LF : ascii := "010"%char.
Definition CR : ascii := "013"%char.
Definition TAB : ascii := "009"%char.

(** The one-character string [c], as [text[i]] yields it. *)
Definition ch (c : ascii) : string := String c EmptyString.

(** [s += c] *)
Definition push_char (s : string) (c : ascii) : string := s +++ ch c.

(** White space and line terminators that [String.prototype.trim] strips,
    among the code units below 256: TAB, LF, VT, FF, CR, SP and NBSP. *)
Definition is_js_space (c : ascii) : bool :=
  let n := nat_of_ascii c in
  ((9 <=? n) && (n <=? 13)) || (n =? 32) || (n =? 160).

Fixpoint trimStart (s : string) : string :=
  match s with
  | EmptyString => EmptyString
  | String c s' => if is_js_space c then trimStart s' else s
  end.

Fixpoint trimEnd (s : string) : string :=
  match s with
  | EmptyString => EmptyString
  | String c s' =>
      match trimEnd s' with
      | EmptyString => if is_js_space c then EmptyString else ch c
      | t => String c t
      end
  end.

(** [s.trim()] *)
Definition trim (s : string) : string := trimEnd (trimStart s).

(** [c.toLowerCase()] on one code unit below 256: A-Z, and the Latin-1
    capitals 192-222 except the multiplication sign 215. *)
Definition lower_char (c : ascii) : ascii :=
  let n := nat_of_ascii c in
  if ((65 <=? n) && (n <=? 90)) || ((192 <=? n) && (n <=? 222) && negb (n =? 215))
  then ascii_of_nat (n + 32) else c.

(** [s.toLowerCase()] *)
Fixpoint toLowerCase (s : string) : string :=
  match s with
  | EmptyString => EmptyString
  | String c s' => String (lower_char c) (toLowerCase s')
  end.

(** [s.startsWith(p)] *)
Definition startsWith (s p : string) : bool := String.prefix p s.

(** [xs.join(sep)] on an array of strings *)
Definition join (sep : string) (xs : list string) : string := String.concat sep xs.

(** ** Tokenizer: [parseCSV] (App.jsx, lines 6-50) *)

(** The four mutable variables of the scan. *)
Record scan_state := mkScan {
  rows : list (list string);
  row : list string;
  field : string;
  inQuotes : bool
}.

Definition scan_init : scan_state := mkScan [] [] EmptyString false.

(** One pass of the [for] loop per character; the escaped quote takes two
    characters at once ([i++]).  [text[i + 1]] past the end is [undefined],
    which is not a quote. *)
Fixpoint scan (delimiter : string) (text : string) (st : scan_state) : scan_state :=
  match text with
  | EmptyString => st
  | String char rest =>
      if inQuotes st then
        if Ascii.eqb char DQUOTE then
          match rest with
          | String next rest' =>
              if Ascii.eqb next DQUOTE
              then scan delimiter rest'
                     (mkScan (rows st) (row st) (push_char (field st) DQUOTE) true)
              else scan delimiter rest (mkScan (rows st) (row st) (field st) false)
          | EmptyString => scan delimiter rest (mkScan (rows st) (row st) (field st) false)
          end
        else scan delimiter rest (mkScan (rows st) (row st) (push_char (field st) char) true)
      else
        if Ascii.eqb char DQUOTE then
          scan delimiter rest (mkScan (rows st) (row st) (field st) true)
        else if String.eqb (ch char) delimiter then
          scan delimiter rest (mkScan (rows st) (row st ++ [field st]) EmptyString false)
        else if Ascii.eqb char LF then
          scan delimiter rest (mkScan (rows st ++ [row st ++ [field st]]) [] EmptyString false)
        else if Ascii.eqb char CR then
          scan delimiter rest st
        else scan delimiter rest (mkScan (rows st) (row st) (push_char (field st) char) false)
  end.

(** The flush after the loop: [if (field !== "" || inQuotes || row.length > 0)]. *)
Definition flush (st : scan_state) : list (list string) :=
  if negb (String.eqb (field st) EmptyString) || inQuotes st || (0 <? List.length (row st))
  then rows st ++ [row st ++ [field st]]
  else rows st.

Definition parseCSV (text : string) (delimiter : string) : list (list string) :=
  flush (scan delimiter text scan_init).

(** ** Numbers: binary64 *)

Definition number := spec_float.

Definition b64_add : number -> number -> number := SFadd 53 1024.
Definition b64_sub : number -> number -> number := SFsub 53 1024.
Definition b64_mul : number -> number -> number := SFmul 53 1024.
Definition b64_div : number -> number -> number := SFdiv 53 1024.
(** [a > b] *)
Definition b64_gt (a b : number) : bool := SFltb b a.

Definition num_of_Z (z : Z) : number := binary_normalize 53 1024 z 0 false.
Definition num_of_nat (n : nat) : number := num_of_Z (Z.of_nat n).

Definition NaN : number := S754_nan.
Definition Infinity : number := S754_infinity false.
Definition neg_Infinity : number := S754_infinity true.

(** [Number.isFinite(n)] *)
Definition isFinite (x : number) : bool :=
  match x with
  | S754_zero _ | S754_finite _ _ _ => true
  | _ => false
  end.

(** [x ** 2]: the square, rounded once. *)
Definition b64_sq (x : number) : number := b64_mul x x.

(** ** Delimiter detector: [detectDelimiterByStructure] (lines 55-78) *)

Definition CANDIDATES : list string := [","; ch TAB; ";"; "|"; ":"].

(** [sample.split(/\r?\n/)]: the separator is a line feed, with the
    carriage return before it when there is one. *)
Fixpoint split_lines_from (cur : string) (s : string) : list string :=
  match s with
  | EmptyString => [cur]
  | String c rest =>
      if Ascii.eqb c LF then cur :: split_lines_from EmptyString rest
      else if Ascii.eqb c CR then
        match rest with
        | String c2 rest2 =>
            if Ascii.eqb c2 LF then cur :: split_lines_from EmptyString rest2
            else split_lines_from (push_char cur c) rest
        | EmptyString => split_lines_from (push_char cur c) rest
        end
      else split_lines_from (push_char cur c) rest
  end.

Definition split_lines (s : string) : list string := split_lines_from EmptyString s.

(** [sample.split(/\r?\n/).slice(0, 20).join("\n")] *)
Definition first_lines (sample : string) : string :=
  join (ch LF) (firstn 20 (split_lines sample)).

(** [r.some(c => (c ?? "").trim() !== "")] *)
Definition row_has_content (r : list string) : bool :=
  existsb (fun c => negb (String.eqb (trim c) EmptyString)) r.

(** [new Set(lens).size] *)
Definition uniqueLens_of (lens : list nat) : nat :=
  List.length (nodup Nat.eq_dec lens).

Definition sum_num (xs : list number) : number :=
  fold_left b64_add xs (num_of_nat 0).

(** [lens = rows.map(r => r.length)] *)
Definition row_lens (rs : list (list string)) : list nat := map (@List.length string) rs.

(** [matching]: the data rows with content that are as long as the header. *)
Definition matching_of (rs : list (list string)) : nat :=
  let headerCols := hd 0 (row_lens rs) in
  let nonEmpty := filter row_has_content (tl rs) in
  List.length (filter (fun r => List.length r =? headerCols) nonEmpty).

(** [mean = lens.reduce((a, c) => a + c, 0) / lens.length] *)
Definition mean_of (lens : list nat) : number :=
  b64_div (sum_num (map num_of_nat lens)) (num_of_nat (List.length lens)).

(** [variance = lens.reduce((a, c) => a + (c - mean) ** 2, 0) / lens.length] *)
Definition variance_of (lens : list nat) : number :=
  b64_div (sum_num (map (fun c => b64_sq (b64_sub (num_of_nat c) (mean_of lens))) lens))
          (num_of_nat (List.length lens)).

(** [score = matching * 100 - variance * 10 - (uniqueLens - 1) * 5] *)
Definition score_of (rs : list (list string)) : number :=
  b64_sub
    (b64_sub (b64_mul (num_of_nat (matching_of rs)) (num_of_nat 100))
             (b64_mul (variance_of (row_lens rs)) (num_of_nat 10)))
    (b64_mul (b64_sub (num_of_nat (uniqueLens_of (row_lens rs))) (num_of_nat 1))
             (num_of_nat 5)).

(** The score of candidate [d] on [text], or [None] when the candidate is
    skipped: fewer than two rows ([continue]) or a header of one column. *)
Definition candidate_score (text d : string) : option number :=
  let rs := parseCSV text d in
  if List.length rs <? 2 then None
  else if 1 <? List.length (hd [] rs) then Some (score_of rs)
  else None.

(** One pass of [for (const d of CANDIDATES)] over the pair
    [(best, bestScore)]. *)
Definition detect_step (text : string) (acc : string * number) (d : string)
  : string * number :=
  match candidate_score text d with
  | Some score => if b64_gt score (snd acc) then (d, score) else acc
  | None => acc
  end.

Definition detectDelimiterByStructure (sample : string) : string :=
  let text := first_lines sample in
  fst (fold_left (detect_step text) CANDIDATES (",", neg_Infinity)).

(** ** Decimal text and binary64 *)

Definition is_digit (c : ascii) : bool :=
  let n := nat_of_ascii c in (48 <=? n) && (n <=? 57).

Definition digit_val (c : ascii) : Z := Z.of_nat (nat_of_ascii c - 48).

(** The longest prefix of digits of [s], and what follows it. *)
Fixpoint span_digits (s : string) : string * string :=
  match s with
  | EmptyString => (EmptyString, EmptyString)
  | String c s' =>
      if is_digit c then let (ds, r) := span_digits s' in (String c ds, r)
      else (EmptyString, s)
  end.

(** The value of a string of decimal digits, most significant first. *)
Fixpoint digits_value_from (acc : Z) (ds : string) : Z :=
  match ds with
  | EmptyString => acc
  | String c ds' => digits_value_from (10 * acc + digit_val c)%Z ds'
  end.

Definition digits_value (ds : string) : Z := digits_value_from 0%Z ds.

(** The binary64 value nearest to [(-1)^neg * m * 10^e] for [m >= 0]
    (round to nearest, ties to even): what the runtime's conversion of a
    decimal literal produces. *)
Definition decimal_to_number (neg : bool) (m e : Z) : number :=
  match m with
  | Zpos p =>
      match e with
      | Zneg k =>
          b64_div (S754_finite neg p 0) (S754_finite false (Pos.pow 10 k) 0)
      | _ => binary_normalize 53 1024 (if neg then - (m * 10 ^ e) else m * 10 ^ e)%Z 0 false
      end
  | _ => S754_zero neg
  end.

(** An optional sign character from [signs] at the head of [s]. *)
Definition strip_sign (minus_only : bool) (s : string) : bool * string :=
  match s with
  | String c s' =>
      if Ascii.eqb c "-"%char then (true, s')
      else if negb minus_only && Ascii.eqb c "+"%char then (false, s')
      else (false, s)
  | EmptyString => (false, s)
  end.

Definition is_e (c : ascii) : bool := Ascii.eqb c "e"%char || Ascii.eqb c "E"%char.

(** An exponent part that runs to the end of the text: nothing, or
    [[eE][+-]?\d+]; the exponent it denotes. *)
Definition parse_exponent (s : string) : option Z :=
  match s with
  | EmptyString => Some 0%Z
  | String c s' =>
      if is_e c then
        let (neg, s1) := strip_sign false s' in
        let (ds, r) := span_digits s1 in
        match ds, r with
        | String _ _, EmptyString =>
            Some (if neg then - digits_value ds else digits_value ds)%Z
        | _, _ => None
        end
      else None
  end.

(** What follows the decimal point at the head of [s], if there is one. *)
Definition after_dot (s : string) : option string :=
  match s with
  | String c s' => if Ascii.eqb c "."%char then Some s' else None
  | EmptyString => None
  end.

(** The pattern of [inferScalar]:
    [/^-?\d+(?:\.\d+)?(?:[eE][+-]?\d+)?$/.test(t)]. *)
Definition matches_number_pattern (t : string) : bool :=
  let (_, t1) := strip_sign true t in
  let (ip, r1) := span_digits t1 in
  match ip with
  | EmptyString => false
  | _ =>
      match after_dot r1 with
      | Some r2 =>
          let (fp, r3) := span_digits r2 in
          match fp with
          | EmptyString => false
          | _ => match parse_exponent r3 with Some _ => true | None => false end
          end
      | None => match parse_exponent r1 with Some _ => true | None => false end
      end
  end.

(** [StrUnsignedDecimalLiteral] other than [Infinity]: digits with an
    optional fraction, or a fraction alone, and an optional exponent;
    the pair [(m, e)] stands for [m * 10^e]. *)
Definition parse_unsigned_decimal (s : string) : option (Z * Z) :=
  let (ip, r1) := span_digits s in
  match after_dot r1 with
  | Some r2 =>
      let (fp, r3) := span_digits r2 in
      match ip, fp with
      | EmptyString, EmptyString => None
      | _, _ =>
          match parse_exponent r3 with
          | Some e => Some (digits_value (ip +++ fp), (e - Z.of_nat (String.length fp))%Z)
          | None => None
          end
      end
  | None =>
      match ip with
      | EmptyString => None
      | _ => match parse_exponent r1 with
             | Some e => Some (digits_value ip, e)
             | None => None
             end
      end
  end.

(** The value of a digit in a radix up to 16, if it is one. *)
Definition radix_digit (radix : Z) (c : ascii) : option Z :=
  let n := nat_of_ascii c in
  let v := if (48 <=? n) && (n <=? 57) then n - 48
           else if (97 <=? n) && (n <=? 102) then n - 87
           else if (65 <=? n) && (n <=? 70) then n - 55
           else 16 in
  if (Z.of_nat v <? radix)%Z then Some (Z.of_nat v) else None.

Fixpoint radix_value_from (radix : Z) (acc : Z) (s : string) : option Z :=
  match s with
  | EmptyString => Some acc
  | String c s' =>
      match radix_digit radix c with
      | Some v => radix_value_from radix (radix * acc + v)%Z s'
      | None => None
      end
  end.

(** [0x], [0o] and [0b] literals (no sign). *)
Definition parse_non_decimal (s : string) : option Z :=
  match s with
  | String "0" (String c (String d ds)) =>
      let radix := if Ascii.eqb (lower_char c) "x"%char then 16%Z
                   else if Ascii.eqb (lower_char c) "o"%char then 8%Z
                   else if Ascii.eqb (lower_char c) "b"%char then 2%Z else 0%Z in
      if (radix =? 0)%Z then None else radix_value_from radix 0%Z (String d ds)
  | _ => None
  end.

(** [StringToNumber]: the conversion [Number(s)] applies to a string. *)
Definition string_to_number (s : string) : number :=
  let t := trim s in
  match t with
  | EmptyString => S754_zero false
  | _ =>
      match parse_non_decimal t with
      | Some z => num_of_Z z
      | None =>
          let (neg, u) := strip_sign false t in
          if String.eqb u "Infinity" then S754_infinity neg
          else match parse_unsigned_decimal u with
               | Some (m, e) => decimal_to_number neg m e
               | None => NaN
               end
      end
  end.

(** The decimal digits of [z >= 0]. *)
Fixpoint decimal_from (fuel : nat) (z : Z) (acc : string) : string :=
  match fuel with
  | 0 => acc
  | S f =>
      let acc' := String (ascii_of_nat (48 + Z.to_nat (z mod 10))) acc in
      if (z <? 10)%Z then acc' else decimal_from f (z / 10)%Z acc'
  end.

Definition Z_to_decimal (z : Z) : string :=
  decimal_from (S (Z.to_nat (Z.log2 z))) z EmptyString.

Definition nat_to_decimal (n : nat) : string := Z_to_decimal (Z.of_nat n).

Fixpoint zeros (n : nat) : string :=
  match n with 0 => EmptyString | S n' => String "0" (zeros n') end.

(** The least [j >= 1] with [num * 10^j >= den], for [0 < num < den]. *)
Fixpoint scale_up (fuel : nat) (j : Z) (num den : Z) : Z :=
  match fuel with
  | 0 => j
  | S f => if (den <=? num * 10 ^ j)%Z then j else scale_up f (j + 1)%Z num den
  end.

(** The [n] with [10^(n-1) <= num/den < 10^n], for a positive quotient. *)
Definition decimal_exponent (num den : Z) : Z :=
  if (den <=? num)%Z then Z.of_nat (String.length (Z_to_decimal (num / den)))
  else (1 - scale_up 400 1 num den)%Z.

(** The digits [s] and exponent [n] of [Number::toString]: the least
    number [k] of digits such that [s * 10^(n-k)] converts back to [x],
    and among two such [s] the one nearest to [x] (the even one on a tie).
    [x] is the positive value [num/den]. *)
Fixpoint shortest_digits (fuel : nat) (k : Z) (x : number) (num den n : Z) : Z * Z :=
  match fuel with
  | 0 => (num / den, n)%Z
  | S f =>
      let '(N, D) := if (n <=? k)%Z then (num * 10 ^ (k - n), den)%Z
                     else (num, den * 10 ^ (n - k))%Z in
      let lo := (N / D)%Z in
      let r := (N mod D)%Z in
      let hi := (lo + 1)%Z in
      let ok z := SFeqb (decimal_to_number false z (n - k)) x in
      let carry s := if (s =? 10 ^ k)%Z then (10 ^ (k - 1), n + 1)%Z else (s, n) in
      if (r =? 0)%Z then (lo, n)
      else if ok lo && ok hi then
        carry (if (2 * r <? D)%Z then lo
               else if (D <? 2 * r)%Z then hi
               else if Z.even lo then lo else hi)
      else if ok lo then (lo, n)
      else if ok hi then carry hi
      else shortest_digits f (k + 1)%Z x num den n
  end.

Definition substring_from (i : nat) (s : string) : string :=
  String.substring i (String.length s - i) s.

(** [Number::toString(x)] in radix 10. *)
Definition number_to_string (x : number) : string :=
  match x with
  | S754_nan => "NaN"
  | S754_zero _ => "0"
  | S754_infinity s => if s then "-Infinity" else "Infinity"
  | S754_finite sg m e =>
      let num := match e with Zpos _ => (Zpos m * 2 ^ e)%Z | _ => Zpos m end in
      let den := match e with Zneg _ => (2 ^ (- e))%Z | _ => 1%Z end in
      let n0 := decimal_exponent num den in
      let '(s, n) := shortest_digits 17 1 (S754_finite false m e) num den n0 in
      let ds := Z_to_decimal s in
      let k := Z.of_nat (String.length ds) in
      let body :=
        if ((k <=? n) && (n <=? 21))%Z then ds +++ zeros (Z.to_nat (n - k))
        else if ((0 <? n) && (n <=? 21))%Z then
          String.substring 0 (Z.to_nat n) ds +++ "." +++ substring_from (Z.to_nat n) ds
        else if ((-6 <? n) && (n <=? 0))%Z then "0." +++ zeros (Z.to_nat (- n)) +++ ds
        else
          let ex := (n - 1)%Z in
          let tail := "e" +++ (if (0 <=? ex)%Z then "+" else "-") +++ Z_to_decimal (Z.abs ex) in
          if (k =? 1)%Z then ds +++ tail
          else String.substring 0 1 ds +++ "." +++ substring_from 1 ds +++ tail in
      if sg then "-" +++ body else body
  end.

(** ** Values *)

(** What [JSON.parse] and the pipeline produce: null, booleans, numbers,
    strings, arrays and plain objects. *)
Unset Elimination Schemes.
Inductive Value : Type :=
| VNull : Value
| VBool : bool -> Value
| VNum : number -> Value
| VStr : string -> Value
| VArr : list Value -> Value
| VObj : list (string * Value) -> Value.
Set Elimination Schemes.

Definition entries := list (string * Value).

(** ** Plain objects as ordered property lists *)

(** The array index a property name denotes, if it is one: a canonical
    decimal numeral below [2^32 - 1].  [Object.keys] lists such keys first,
    in ascending order, then the other keys in creation order. *)
Definition array_index (k : string) : option Z :=
  let (ds, r) := span_digits k in
  match ds, r with
  | String c rest, EmptyString =>
      if Ascii.eqb c "0"%char && negb (String.eqb rest EmptyString) then None
      else if (digits_value ds <? 4294967295)%Z then Some (digits_value ds) else None
  | _, _ => None
  end.

(** [k in o], for own properties. *)
Fixpoint obj_has (k : string) (o : entries) : bool :=
  match o with
  | [] => false
  | (k', _) :: o' => String.eqb k k' || obj_has k o'
  end.

(** [o[k]] as a continuation-passing lookup: [found] receives the value of
    the own property [k], [missing] stands for [undefined]. *)
Definition obj_lookup {A : Type} (k : string) (found : Value -> A) (missing : A)
  : entries -> A :=
  fix lookup (o : entries) : A :=
    match o with
    | [] => missing
    | (k', v) :: o' => if String.eqb k k' then found v else lookup o'
    end.


(** Overwrite the value of the existing property [k], keeping its place. *)
Fixpoint obj_replace (k : string) (v : Value) (o : entries) : entries :=
  match o with
  | [] => []
  | (k', v') :: o' =>
      if String.eqb k k' then (k', v) :: o' else (k', v') :: obj_replace k v o'
  end.

(** Create the array-index property [k] (of index [n]) at its place among
    the index keys. *)
Fixpoint obj_insert_index (n : Z) (k : string) (v : Value) (o : entries) : entries :=
  match o with
  | [] => [(k, v)]
  | (k', v') :: o' =>
      match array_index k' with
      | Some m => if (n <? m)%Z then (k, v) :: o
                  else (k', v') :: obj_insert_index n k v o'
      | None => (k, v) :: o
      end
  end.

(** [out[k] = v] *)
Definition obj_set (o : entries) (k : string) (v : Value) : entries :=
  if obj_has k o then obj_replace k v o
  else match array_index k with
       | Some n => obj_insert_index n k v o
       | None => o ++ [(k, v)]
       end.

(** The object built by [out = {}; for ([k, v] of es) out[k] = v]. *)
Definition obj_of_entries (es : entries) : entries :=
  fold_left (fun out kv => obj_set out (fst kv) (snd kv)) es [].

(** The entries [["0", x0], ["1", x1], ...] of an array or a string. *)
Fixpoint index_entries_from (i : nat) (xs : list Value) : entries :=
  match xs with
  | [] => []
  | x :: xs' => (nat_to_decimal i, x) :: index_entries_from (S i) xs'
  end.

Definition index_entries (xs : list Value) : entries := index_entries_from 0 xs.

(** ** Coercions of the runtime *)

(** [Boolean(v)] *)
Definition truthy (v : Value) : bool :=
  match v with
  | VNull => false
  | VBool b => b
  | VNum (S754_zero _) => false
  | VNum S754_nan => false
  | VNum _ => true
  | VStr s => negb (String.eqb s EmptyString)
  | VArr _ | VObj _ => true
  end.

(** [String(v)] *)
Fixpoint js_String (v : Value) : string :=
  match v with
  | VNull => "null"
  | VBool b => if b then "true" else "false"
  | VNum x => number_to_string x
  | VStr s => s
  | VArr l =>
      join "," (map (fun e => match e with VNull => EmptyString | _ => js_String e end) l)
  | VObj _ => "[object Object]"
  end.

(** [Number(v)] *)
Definition js_Number (v : Value) : number :=
  match v with
  | VNull => S754_zero false
  | VBool b => if b then num_of_nat 1 else S754_zero false
  | VNum x => x
  | VStr s => string_to_number s
  | VArr _ => string_to_number (js_String v)
  | VObj _ => NaN
  end.

(** [Array.isArray(v)] *)
Definition isArray (v : Value) : bool :=
  match v with VArr _ => true | _ => false end.

(** [v && typeof v === 'object'] *)
Definition is_object_like (v : Value) : bool :=
  match v with VArr _ | VObj _ => true | _ => false end.

(** ** Value classifier (lines 83-100, 128-132) *)

Definition looksLikeJSON (value : Value) : bool :=
  match value with
  | VStr s =>
      let t := trim s in
      match t with
      | EmptyString => false
      | _ =>
          startsWith t "{" || startsWith t "[" ||
          (startsWith t (ch DQUOTE) &&
           match String.get 1 t with
           | Some c => Ascii.eqb c "{"%char || Ascii.eqb c "["%char
           | None => false
           end)
      end
  | _ => false
  end.

Definition AV_KEYS : list string :=
  ["S"; "N"; "BOOL"; "NULL"; "M"; "L"; "SS"; "NS"; "BS"; "B"].

(** [AV_KEYS.has(k)] *)
Definition AV_KEYS_has (k : string) : bool := existsb (String.eqb k) AV_KEYS.

Definition isAttributeValue (obj : Value) : bool :=
  match obj with
  | VObj [(k, _)] => AV_KEYS_has k
  | _ => false
  end.

(** [Object.values(obj || {})] *)
Definition object_values (obj : Value) : list Value :=
  match obj with
  | VObj o => map snd o
  | VArr l => l
  | VStr s => map (fun c => VStr (ch c)) (list_ascii_of_string s)
  | _ => []
  end.

Definition maybeMapOfAVs (obj : Value) : bool :=
  let entries := object_values obj in
  if List.length entries =? 0 then false
  else forallb isAttributeValue entries.

(** ** Unmarshaller (lines 102-145) *)

(** [Object.entries(obj || {})] with [rec] applied to every value.  The
    values of a string's entries are one-character strings, on which the
    unmarshaller is the identity. *)
Definition entries_with (rec : Value -> Value) (obj : Value) : entries :=
  match obj with
  | VObj o => map (fun kv => (fst kv, rec (snd kv))) o
  | VArr l => index_entries (map rec l)
  | VStr s => index_entries (map (fun c => VStr (ch c)) (list_ascii_of_string s))
  | _ => []
  end.

(** [unmarshallMap], with [rec] for the recursive call [unmarshallDeep]. *)
Definition unmarshallMap_with (rec : Value -> Value) (obj : Value) : Value :=
  VObj (obj_of_entries (entries_with rec obj)).

(** [unmarshallAV], with [rec] for [unmarshallDeep].  Its callers pass
    attribute values only (lines 135 and 138); on an object without keys
    the code would return [undefined], which is not a [Value]. *)
Definition unmarshallAV_with (rec : Value -> Value) (av : Value) : Value :=
  match av with
  | VObj ((t, v) :: _) =>
      if String.eqb t "S" then VStr (js_String v)
      else if String.eqb t "N" then VNum (js_Number v)
      else if String.eqb t "BOOL" then VBool (truthy v)
      else if String.eqb t "NULL" then VNull
      else if String.eqb t "SS" then
        match v with
        | VArr l => VArr (map (fun x => VStr (js_String x)) l)
        | _ => VArr []
        end
      else if String.eqb t "NS" then
        match v with
        | VArr l => VArr (map (fun x => VNum (js_Number x)) l)
        | _ => VArr []
        end
      else if String.eqb t "L" then
        match v with
        | VArr l => VArr (map rec l)
        | _ => VArr []
        end
      else if String.eqb t "M" then unmarshallMap_with rec v
      else v
  | _ => VNull
  end.

Fixpoint unmarshallDeep (value : Value) : Value :=
  if isAttributeValue value then unmarshallAV_with unmarshallDeep value
  else
    match value with
    | VArr l => VArr (map unmarshallDeep l)
    | VObj o =>
        let generic :=
          if maybeMapOfAVs value then unmarshallMap_with unmarshallDeep value
          else VObj (obj_of_entries (map (fun kv => (fst kv, unmarshallDeep (snd kv))) o)) in
        obj_lookup "M"
          (fun m =>
             if truthy m && isAttributeValue (VObj [("M", m)])
             then unmarshallAV_with unmarshallDeep (VObj [("M", m)])
             else generic)
          generic o
    | _ => value
    end.


(** ** Type inferrer (lines 150-173) *)

Definition inferScalar (str : Value) : Value :=
  match str with
  | VStr s =>
      let t := trim s in
      if String.eqb t EmptyString then str
      else
        let lower := toLowerCase t in
        if String.eqb lower "null" then VNull
        else if String.eqb lower "true" then VBool true
        else if String.eqb lower "false" then VBool false
        else if matches_number_pattern t && isFinite (string_to_number t)
             then VNum (string_to_number t)
             else str
  | _ => str
  end.

Fixpoint coerceDeep (value : Value) : Value :=
  match value with
  | VArr l => VArr (map coerceDeep l)
  | VObj o => VObj (obj_of_entries (map (fun kv => (fst kv, coerceDeep (snd kv))) o))
  | _ => inferScalar value
  end.

(** ** [JSON.parse] of the runtime *)

(** JSON white space: space, tab, line feed, carriage return. *)
Definition is_json_ws (c : ascii) : bool :=
  Ascii.eqb c " "%char || Ascii.eqb c TAB || Ascii.eqb c LF || Ascii.eqb c CR.

Fixpoint skip_ws (s : string) : string :=
  match s with
  | String c s' => if is_json_ws c then skip_ws s' else s
  | EmptyString => s
  end.

Definition hex4 (a b c d : ascii) : option Z :=
  radix_value_from 16 0 (String a (String b (String c (String d EmptyString)))).

(** The characters of a string literal after its opening quote, up to the
    closing quote.  An escape [\uXXXX] of a code unit above 255 is outside
    the model's alphabet and is refused. *)
Fixpoint json_string_body (s : string) (acc : string) : option (string * string) :=
  match s with
  | EmptyString => None
  | String c r =>
      if Ascii.eqb c DQUOTE then Some (acc, r)
      else if Ascii.eqb c "\"%char then
        match r with
        | String e r2 =>
            if Ascii.eqb e DQUOTE || Ascii.eqb e "\"%char || Ascii.eqb e "/"%char
            then json_string_body r2 (push_char acc e)
            else if Ascii.eqb e "b"%char then json_string_body r2 (push_char acc "008"%char)
            else if Ascii.eqb e "f"%char then json_string_body r2 (push_char acc "012"%char)
            else if Ascii.eqb e "n"%char then json_string_body r2 (push_char acc LF)
            else if Ascii.eqb e "r"%char then json_string_body r2 (push_char acc CR)
            else if Ascii.eqb e "t"%char then json_string_body r2 (push_char acc TAB)
            else if Ascii.eqb e "u"%char then
              match r2 with
              | String h1 (String h2 (String h3 (String h4 r3))) =>
                  match hex4 h1 h2 h3 h4 with
                  | Some z =>
                      if (z <? 256)%Z
                      then json_string_body r3 (push_char acc (ascii_of_nat (Z.to_nat z)))
                      else None
                  | None => None
                  end
              | _ => None
              end
            else None
        | EmptyString => None
        end
      else if nat_of_ascii c <? 32 then None
      else json_string_body r (push_char acc c)
  end.

(** A JSON number at the head of [s]: an optional minus sign, then [0] or
    a numeral without leading zero, then an optional fraction and an
    optional exponent. *)
Definition json_number (s : string) : option (number * string) :=
  let (neg, s1) := strip_sign true s in
  let (ip, r1) := span_digits s1 in
  match ip with
  | EmptyString => None
  | String c0 rest0 =>
      if Ascii.eqb c0 "0"%char && negb (String.eqb rest0 EmptyString) then None
      else
        let frac :=
          match after_dot r1 with
          | Some r2 =>
              let (fp, r3) := span_digits r2 in
              match fp with EmptyString => None | _ => Some (fp, r3) end
          | None => Some (EmptyString, r1)
          end in
        match frac with
        | None => None
        | Some (fp, r3) =>
            let m := digits_value (ip +++ fp) in
            let shift := Z.of_nat (String.length fp) in
            match r3 with
            | String c r4 =>
                if is_e c then
                  let (eneg, r5) := strip_sign false r4 in
                  let (ds, r6) := span_digits r5 in
                  match ds with
                  | EmptyString => None
                  | _ =>
                      let e := if eneg then (- digits_value ds)%Z else digits_value ds in
                      Some (decimal_to_number neg m (e - shift), r6)
                  end
                else Some (decimal_to_number neg m (- shift), r3)
            | EmptyString => Some (decimal_to_number neg m (- shift), r3)
            end
        end
  end.

(** [s] without its prefix [p], when it starts with [p]. *)
Fixpoint strip_prefix (p s : string) : option string :=
  match p with
  | EmptyString => Some s
  | String a p' =>
      match s with
      | String b s' => if Ascii.eqb a b then strip_prefix p' s' else None
      | EmptyString => None
      end
  end.

(** The text after the character [c], when [c] is the first character of
    [s] that is not white space. *)
Definition expect (c : ascii) (s : string) : option string :=
  match skip_ws s with
  | String c' r => if Ascii.eqb c' c then Some r else None
  | EmptyString => None
  end.

(** One of the literals [true], [false] and [null] at the head of [s]. *)
Definition json_literal (s : string) : option (Value * string) :=
  match strip_prefix "true" s with
  | Some r => Some (VBool true, r)
  | None =>
      match strip_prefix "false" s with
      | Some r => Some (VBool false, r)
      | None =>
          match strip_prefix "null" s with
          | Some r => Some (VNull, r)
          | None => None
          end
      end
  end.

(** A JSON value at the head of [s], and the text after it.  Every
    recursive call reads a shorter text; [fuel] bounds their nesting. *)
Fixpoint json_value (fuel : nat) (s : string) : option (Value * string) :=
  match fuel with
  | 0 => None
  | S f =>
      match skip_ws s with
      | EmptyString => None
      | String c r =>
          if Ascii.eqb c "{"%char then
            match expect "}" r with
            | Some r' => Some (VObj [], r')
            | None => json_members f r []
            end
          else if Ascii.eqb c "["%char then
            match expect "]" r with
            | Some r' => Some (VArr [], r')
            | None => json_elements f r []
            end
          else if Ascii.eqb c DQUOTE then
            match json_string_body r EmptyString with
            | Some (str, r') => Some (VStr str, r')
            | None => None
            end
          else
            match json_literal (String c r) with
            | Some lit => Some lit
            | None =>
                match json_number (String c r) with
                | Some (x, r') => Some (VNum x, r')
                | None => None
                end
            end
      end
  end
with json_elements (fuel : nat) (s : string) (acc : list Value) : option (Value * string) :=
  match fuel with
  | 0 => None
  | S f =>
      match json_value f s with
      | Some (v, r) =>
          match expect "," r with
          | Some r' => json_elements f r' (acc ++ [v])
          | None =>
              match expect "]" r with
              | Some r' => Some (VArr (acc ++ [v]), r')
              | None => None
              end
          end
      | None => None
      end
  end
with json_members (fuel : nat) (s : string) (acc : entries) : option (Value * string) :=
  match fuel with
  | 0 => None
  | S f =>
      match expect DQUOTE s with
      | Some r =>
          match json_string_body r EmptyString with
          | Some (k, r1) =>
              match expect ":" r1 with
              | Some r2 =>
                  match json_value f r2 with
                  | Some (v, r3) =>
                      match expect "," r3 with
                      | Some r4 => json_members f r4 (obj_set acc k v)
                      | None =>
                          match expect "}" r3 with
                          | Some r4 => Some (VObj (obj_set acc k v), r4)
                          | None => None
                          end
                      end
                  | None => None
                  end
              | None => None
              end
          | None => None
          end
      | None => None
      end
  end.

(** [JSON.parse(s)]: the value, or [None] when the call throws. *)
Definition JSON_parse (s : string) : option Value :=
  match json_value (2 * String.length s + 2) s with
  | Some (v, r) => match skip_ws r with EmptyString => Some v | _ => None end
  | None => None
  end.

(** ** Row-to-record converter: [convertRowsToObjects] (lines 175-198) *)

Record options := mkOptions {
  parseNestedJSON : bool;
  doUnmarshall : bool;
  doInferTypes : bool
}.

(** The body of [headers.forEach] up to the assignment: the value stored
    for the cell [r[idx] ?? ""].  The [try]/[catch] leaves [v] as it was
    when [JSON.parse] throws. *)
Definition convert_cell (opts : options) (cell : string) : Value :=
  let v0 := VStr cell in
  let v1 := if parseNestedJSON opts && looksLikeJSON v0
            then match JSON_parse cell with Some parsed => parsed | None => v0 end
            else v0 in
  let v2 := if doUnmarshall opts && is_object_like v1 then unmarshallDeep v1 else v1 in
  if doInferTypes opts then coerceDeep v2 else v2.

(** [h || `col_${idx + 1}`] *)
Definition header_key (h : string) (idx : nat) : string :=
  if String.eqb h EmptyString then "col_" +++ nat_to_decimal (idx + 1) else h.

(** [headers.forEach((h, idx) => ...)] from position [idx] on. *)
Fixpoint fill_record (opts : options) (r : list string) (idx : nat)
         (headers : list string) (obj : entries) : entries :=
  match headers with
  | [] => obj
  | h :: hs =>
      fill_record opts r (S idx) hs
        (obj_set obj (header_key h idx) (convert_cell opts (nth idx r EmptyString)))
  end.

Definition row_to_record (opts : options) (headers : list string) (r : list string) : entries :=
  fill_record opts r 0 headers [].

Definition convertRowsToObjects (rs : list (list string)) (opts : options) : list entries :=
  match rs with
  | [] => []
  | header :: dataRows =>
      let headers := map trim header in
      map (row_to_record opts headers) (filter row_has_content dataRows)
  end.

(** ** The tokenizer's loop over the index [i]

    The same loop with its counter: [loop_body] is one pass at index [i]
    and returns the next index (the escaped quote skips one more). *)






(** [rs[i][j]], when the row and the field exist. *)
Definition field_at (rs : list (list string)) (i j : nat) : option string :=
  match nth_error rs i with
  | Some r => nth_error r j
  | None => None
  end.

(** The input of the specification's quote-escaping example, read in the
    three ways its notation allows: every character as written; the
    characters between the first and the last quote; the characters after
    the first quote. *)
Definition quote_example_verbatim : string :=
  ch DQUOTE +++ "id,name" +++ ch LF +++ "1," +++ ch DQUOTE +++ ch DQUOTE +++ "Alice, A."
    +++ ch DQUOTE +++ ch DQUOTE.
Definition quote_example_inner : string :=
  "id,name" +++ ch LF +++ "1," +++ ch DQUOTE +++ ch DQUOTE +++ "Alice, A." +++ ch DQUOTE.
Definition quote_example_tail : string :=
  "id,name" +++ ch LF +++ "1," +++ ch DQUOTE +++ ch DQUOTE +++ "Alice, A."
    +++ ch DQUOTE +++ ch DQUOTE.

(** The same table with the second field of row 2 inside one pair of
    quotes, and with a doubled quote at each end of the quoted span. *)
Definition quote_example_quoted : string :=
  "id,name" +++ ch LF +++ "1," +++ ch DQUOTE +++ "Alice, A." +++ ch DQUOTE.
Definition quote_example_escaped : string :=
  "id,name" +++ ch LF +++ "1," +++ ch DQUOTE +++ ch DQUOTE +++ ch DQUOTE +++ "Alice, A."
    +++ ch DQUOTE +++ ch DQUOTE +++ ch DQUOTE.

(** ** Induction over values *)


(** ** Well-formed property lists *)

Definition keys (o : entries) : list string := map fst o.

(** [k1] may stand before [k2] in the listing of an object: an array
    index is preceded by array indices that are not larger. *)
Definition key_before (k1 k2 : string) : bool :=
  match array_index k2 with
  | Some b => match array_index k1 with
              | Some a => (a <=? b)%Z
              | None => false
              end
  | None => true
  end.

(** The keys of an object as the runtime lists them: no key twice, array
    indices first and ascending. *)
Fixpoint keys_wf (ks : list string) : bool :=
  match ks with
  | [] => true
  | k :: ks' =>
      forallb (fun k' => negb (String.eqb k' k) && key_before k k') ks' && keys_wf ks'
  end.

(** Every object inside [v] lists its keys as the runtime does. *)
Fixpoint wf_value (v : Value) : bool :=
  match v with
  | VArr l => forallb wf_value l
  | VObj o => keys_wf (map fst o) && forallb (fun kv => wf_value (snd kv)) o
  | _ => true
  end.

(** ** Shapes named by the properties of the unmarshaller *)






(** ** Names of a record's fields *)



(** ** Example values *)






(** ** The order of binary64 values *)

(** A key whose lexicographic order is the order of the values that are
    not NaN: the sign class first, then exponent and mantissa. *)
Definition order_key (x : number) : Z * Z * Z :=
  match x with
  | S754_zero _ => (0, 0, 0)
  | S754_infinity false => (2, 0, 0)
  | S754_infinity true => (-2, 0, 0)
  | S754_nan => (0, 0, 0)
  | S754_finite false m e => (1, e, Zpos m)
  | S754_finite true m e => (-1, - e, Zneg m)
  end%Z.

Definition key_lt (a b : Z * Z * Z) : Prop :=
  let '(a1, a2, a3) := a in
  let '(b1, b2, b3) := b in
  (a1 < b1 \/ (a1 = b1 /\ (a2 < b2 \/ (a2 = b2 /\ a3 < b3))))%Z.

Definition is_nan (x : number) : bool :=
  match x with S754_nan => true | _ => false end.

(** The pass of the detector's loop, for any scoring of the candidates. *)
Definition select_step (score : string -> option number) (acc : string * number)
           (d : string) : string * number :=
  match score d with
  | Some s => if b64_gt s (snd acc) then (d, s) else acc
  | None => acc
  end.

(** ** The inferrer's tests, as the specification words them *)

(** [c] is the lower-case letter [k] or its capital. *)
Definition same_letter (k c : ascii) : bool :=
  Ascii.eqb c k || Ascii.eqb c (ascii_of_nat (nat_of_ascii k - 32)).

(** [t] is the lower-case word [kw], letter case apart. *)
Fixpoint eq_ignore_case (kw t : string) : bool :=
  match kw, t with
  | EmptyString, EmptyString => true
  | String k kw', String c t' => same_letter k c && eq_ignore_case kw' t'
  | _, _ => false
  end.

(** One or more decimal digits. *)
Definition digits1 (s : string) : bool :=
  match s with
  | EmptyString => false
  | _ => forallb is_digit (list_ascii_of_string s)
  end.

(** [-?digits(.digits)?([eE][+-]?digits)?]: an optional minus sign, digits,
    an optional fraction and an optional exponent, and nothing else. *)
Definition NumericPattern (t : string) : Prop :=
  exists sign ip frac ex : string,
    t = sign +++ ip +++ frac +++ ex /\
    (sign = EmptyString \/ sign = "-") /\
    digits1 ip = true /\
    (frac = EmptyString \/ exists fp, frac = "." +++ fp /\ digits1 fp = true) /\
    (ex = EmptyString \/
     exists e sg ds, ex = String e (sg +++ ds) /\ is_e e = true /\
                     (sg = EmptyString \/ sg = "+" \/ sg = "-") /\ digits1 ds = true).

(** The binary64 value nearest to 123.45. *)
Definition double_123_45 : number := S754_finite false 8687021468732621 (-46).

(** [r] is empty or starts with a character that is no digit. *)
Definition starts_non_digit (r : string) : Prop :=
  match r with
  | EmptyString => True
  | String c _ => is_digit c = false
  end.

Definition all_digits (s : string) : bool := forallb is_digit (list_ascii_of_string s).

(** An exponent part: nothing, or [[eE][+-]?digits]. *)
Definition ExponentPart (ex : string) : Prop :=
  ex = EmptyString \/
  exists e sg ds, ex = String e (sg +++ ds) /\ is_e e = true /\
                  (sg = EmptyString \/ sg = "+" \/ sg = "-") /\ digits1 ds = true.

(** The tab-separated detection sample of the specification. *)
Definition tab_sample : string :=
  "a" +++ ch TAB +++ "b" +++ ch LF +++ "X" +++ ch TAB +++ "Y".

(** ** Measures used by the detector's bounds *)

(** [small K x]: [x] is a zero, or a finite number whose absolute value is
    below [2 ^ K]. *)
Definition small (K : Z) (x : number) : Prop :=
  match x with
  | S754_zero _ => True
  | S754_finite _ m e => (Zpos m < 2 ^ (K - e))%Z
  | _ => False
  end.

(** The number of line feeds of a text. *)
Fixpoint count_LF (s : string) : nat :=
  match s with
  | EmptyString => 0
  | String c s' => (if Ascii.eqb c LF then 1 else 0) + count_LF s'
  end.

(* ================================================================== *)
(** * Part II.  Properties                                             *)
(* ================================================================== *)

(** ** Strings *)


Lemma append_empty_r (a : string) : a +++ EmptyString = a.
Proof. induction a as [|x a IH]; simpl; [reflexivity | now rewrite IH]. Qed.

Lemma length_append (a b : string) :
  String.length (a +++ b) = String.length a + String.length b.
Proof. induction a as [|x a IH]; simpl; [reflexivity | now rewrite IH]. Qed.



Lemma length_push_char (p : string) (c : ascii) :
  String.length (push_char p c) = S (String.length p).
Proof. unfold push_char, ch. rewrite length_append. simpl. lia. Qed.

(** ** Tokenizer *)







(** C9, as the specification writes its input.  Whichever way the written
    text is read, its doubled quotes open and close an empty quoted span,
    the comma after [Alice] splits the field, and field 2 of row 2 is not
    [Alice, A.]. *)
Lemma quote_example_as_written :
  field_at (parseCSV quote_example_inner ",") 1 1 <> Some "Alice, A." /\
  field_at (parseCSV quote_example_tail ",") 1 1 <> Some "Alice, A." /\
  field_at (parseCSV quote_example_verbatim ",") 1 1 <> Some "Alice, A.".
Proof. repeat split; vm_compute; discriminate. Qed.

Example quote_example_inner_rows :
  parseCSV quote_example_inner "," = [["id"; "name"]; ["1"; "Alice"; " A."]].
Proof. reflexivity. Qed.

Example quote_example_verbatim_rows :
  parseCSV quote_example_verbatim "," =
    [["id,name" +++ ch LF +++ "1," +++ ch DQUOTE +++ "Alice, A." +++ ch DQUOTE]].
Proof. reflexivity. Qed.

(** C9, amended.  With the second field of row 2 inside one pair of
    quotes, field 2 of row 2 is [Alice, A.], comma included; inside a
    quoted span the delimiter is kept as text, and a doubled quote takes
    two characters and leaves one quote character in the field. *)
Theorem quote_example_quoted_field :
  field_at (parseCSV quote_example_quoted ",") 1 1 = Some "Alice, A." /\
  field_at (parseCSV quote_example_escaped ",") 1 1
    = Some (ch DQUOTE +++ "Alice, A." +++ ch DQUOTE) /\
  (forall rest rs r f,
      scan "," (String "," rest) (mkScan rs r f true)
      = scan "," rest (mkScan rs r (push_char f ",") true)) /\
  (forall d rest rs r f,
      scan d (String DQUOTE (String DQUOTE rest)) (mkScan rs r f true)
      = scan d rest (mkScan rs r (push_char f DQUOTE) true)).
Proof. repeat split. Qed.

(** ** Property lists *)


Lemma keys_app (o1 o2 : entries) : keys (o1 ++ o2) = keys o1 ++ keys o2.
Proof. apply map_app. Qed.


Lemma obj_has_in (k : string) (o : entries) :
  obj_has k o = true <-> In k (keys o).
Proof.
  induction o as [|[k' v] o IH]; simpl.
  - split; [discriminate | tauto].
  - rewrite orb_true_iff, IH, String.eqb_eq. split; intros [H|H]; auto.
Qed.


Lemma keys_obj_replace (k : string) (v : Value) (o : entries) :
  keys (obj_replace k v o) = keys o.
Proof.
  induction o as [|[k' v'] o IH]; simpl; [reflexivity|].
  destruct (String.eqb k k'); simpl; [reflexivity | now f_equal].
Qed.

Lemma in_keys_insert_index (n : Z) (k : string) (v : Value) (o : entries) (k' : string) :
  In k' (keys (obj_insert_index n k v o)) <-> k' = k \/ In k' (keys o).
Proof.
  induction o as [|[k1 v1] o IH]; simpl.
  - split; intros [H|H]; auto.
  - destruct (array_index k1) as [m|]; [destruct (n <? m)%Z|]; simpl;
      try rewrite IH; split; intros H; intuition auto.
Qed.


Lemma in_obj_replace (k : string) (v : Value) (o : entries) (kv : string * Value) :
  In kv (obj_replace k v o) -> fst kv = k /\ snd kv = v \/ In kv o.
Proof.
  induction o as [|[k' v'] o IH]; simpl; [tauto|].
  destruct (String.eqb_spec k k') as [->|Hne]; simpl.
  - intros [<-|H]; auto.
  - intros [<-|H]; auto. destruct (IH H); auto.
Qed.

Lemma in_obj_insert_index (n : Z) (k : string) (v : Value) (o : entries) (kv : string * Value) :
  In kv (obj_insert_index n k v o) -> kv = (k, v) \/ In kv o.
Proof.
  induction o as [|[k1 v1] o IH]; simpl.
  - intros [<-|[]]; auto.
  - destruct (array_index k1) as [m|]; [destruct (n <? m)%Z|]; simpl;
      intros H; intuition auto.
Qed.

(** An assignment stores [v] under [k] and keeps every other stored pair. *)
Lemma in_obj_set (o : entries) (k : string) (v : Value) (kv : string * Value) :
  In kv (obj_set o k v) -> fst kv = k /\ snd kv = v \/ In kv o.
Proof.
  unfold obj_set. destruct (obj_has k o).
  - apply in_obj_replace.
  - destruct (array_index k) as [n|].
    + intros H. apply in_obj_insert_index in H. destruct H as [->|H]; auto.
    + rewrite in_app_iff. simpl. intros [H|[<-|[]]]; auto.
Qed.

Lemma keys_wf_forall (k : string) (ks : list string) :
  keys_wf (k :: ks) = true <->
  (forall k', In k' ks -> k' <> k /\ key_before k k' = true) /\ keys_wf ks = true.
Proof.
  simpl. rewrite andb_true_iff, forallb_forall. split; intros [H1 H2]; split; auto.
  - intros k' Hin. specialize (H1 k' Hin). apply andb_true_iff in H1.
    destruct H1 as [Hne Hb]. split; [|exact Hb].
    apply negb_true_iff in Hne. now apply String.eqb_neq.
  - intros k' Hin. destruct (H1 k' Hin) as [Hne Hb]. apply andb_true_iff. split; [|exact Hb].
    apply negb_true_iff. now apply String.eqb_neq.
Qed.



Lemma keys_wf_snoc (ks : list string) (k : string) :
  keys_wf (ks ++ [k]) = true <->
  keys_wf ks = true /\ (forall k', In k' ks -> k' <> k /\ key_before k' k = true).
Proof.
  induction ks as [|a ks IH].
  - simpl. split; [intros _; split; [reflexivity | intros k' []] | reflexivity].
  - rewrite <- app_comm_cons. rewrite !keys_wf_forall, IH. split.
    + intros [H1 [H2 H3]]. split; [split; [|exact H2]|].
      * intros k' Hin. apply H1. apply in_or_app. now left.
      * intros k' [<-|Hin]; [|now apply H3].
        assert (Hk : In k (ks ++ [k])) by (apply in_or_app; right; now left).
        destruct (H1 k Hk) as [Hne Hb].
        split; [congruence | exact Hb].
    + intros [[H1 H2] H3]. split; [|split; [exact H2|]].
      * intros k' Hin. apply in_app_or in Hin. destruct Hin as [Hin|[<-|[]]]; [now apply H1|].
        destruct (H3 a (or_introl eq_refl)) as [Hne Hb]. split; [congruence | exact Hb].
      * intros k' Hin. apply H3. now right.
Qed.






Lemma keys_wf_insert_index (n : Z) (k : string) (v : Value) (o : entries) :
  array_index k = Some n ->
  obj_has k o = false ->
  keys_wf (keys o) = true ->
  keys_wf (keys (obj_insert_index n k v o)) = true.
Proof.
  intros Hk. induction o as [|[k1 v1] o IH]; intros Hhas Hwf; [reflexivity|].
  simpl in Hhas. apply orb_false_iff in Hhas. destruct Hhas as [Hne Hhas].
  apply String.eqb_neq in Hne.
  change (keys ((k1, v1) :: o)) with (k1 :: keys o) in Hwf.
  pose proof Hwf as Hwf0.
  apply keys_wf_forall in Hwf. destruct Hwf as [H1 H2].
  assert (Hfresh : forall k', In k' (keys o) -> k' <> k).
  { intros k' Hin ->. apply obj_has_in in Hin. congruence. }
  simpl. destruct (array_index k1) as [m|] eqn:Hk1.
  - destruct (n <? m)%Z eqn:Hnm.
    + change (keys_wf (k :: k1 :: keys o) = true).
      apply keys_wf_forall. split; [|exact Hwf0].
      apply Z.ltb_lt in Hnm.
      intros k' [<-|Hin].
      * split; [congruence|]. unfold key_before. rewrite Hk1, Hk. apply Z.leb_le. lia.
      * split; [now apply Hfresh|]. destruct (H1 k' Hin) as [_ Hb].
        unfold key_before in *. rewrite Hk. rewrite Hk1 in Hb.
        destruct (array_index k') as [m'|]; [|reflexivity].
        apply Z.leb_le in Hb. apply Z.leb_le. lia.
    + change (keys_wf (k1 :: keys (obj_insert_index n k v o)) = true).
      apply keys_wf_forall. split; [|now apply IH].
      intros k' Hin. apply in_keys_insert_index in Hin. destruct Hin as [->|Hin].
      * split; [congruence|]. unfold key_before. rewrite Hk, Hk1.
        apply Z.ltb_ge in Hnm. now apply Z.leb_le.
      * now apply H1.
  - change (keys_wf (k :: k1 :: keys o) = true).
    apply keys_wf_forall. split; [|exact Hwf0].
    intros k' [<-|Hin].
    + split; [congruence|]. unfold key_before. now rewrite Hk1.
    + split; [now apply Hfresh|]. destruct (H1 k' Hin) as [_ Hb].
      unfold key_before in *. rewrite Hk1 in Hb.
      destruct (array_index k') as [m'|]; [discriminate | reflexivity].
Qed.

(** Assignments keep a listing in the runtime's order. *)
Lemma keys_wf_obj_set (o : entries) (k : string) (v : Value) :
  keys_wf (keys o) = true -> keys_wf (keys (obj_set o k v)) = true.
Proof.
  intros Hwf. unfold obj_set. destruct (obj_has k o) eqn:Hhas.
  - now rewrite keys_obj_replace.
  - destruct (array_index k) as [n|] eqn:Hk.
    + now apply keys_wf_insert_index.
    + rewrite keys_app. simpl. apply keys_wf_snoc. split; [exact Hwf|].
      intros k' Hin. split.
      * intros ->. apply obj_has_in in Hin. congruence.
      * unfold key_before. now rewrite Hk.
Qed.




(** ** Unmarshaller *)
















(** ** Idempotence *)

Lemma inferScalar_string_cases (s : string) :
  inferScalar (VStr s) = VStr s \/
  inferScalar (VStr s) = VNull \/
  (exists b, inferScalar (VStr s) = VBool b) \/
  (exists x, inferScalar (VStr s) = VNum x).
Proof.
  unfold inferScalar.
  destruct (String.eqb (trim s) EmptyString); [now left|].
  destruct (String.eqb (toLowerCase (trim s)) "null"); [now right; left|].
  destruct (String.eqb (toLowerCase (trim s)) "true"); [right; right; left; now eexists|].
  destruct (String.eqb (toLowerCase (trim s)) "false"); [right; right; left; now eexists|].
  destruct (matches_number_pattern (trim s) && isFinite (string_to_number (trim s)));
    [right; right; right; now eexists | now left].
Qed.

Lemma inferScalar_idempotent (v : Value) :
  inferScalar (inferScalar v) = inferScalar v.
Proof.
  destruct v; try reflexivity.
  destruct (inferScalar_string_cases s) as [H|[H|[[b H]|[x H]]]]; rewrite H;
    [exact H | reflexivity ..].
Qed.



Lemma forallb_first_false {A : Type} (f : A -> bool) (x : A) (l : list A) :
  f x = false -> forallb f (x :: l) = false.
Proof. intros H. simpl. now rewrite H. Qed.





(** ** Row-to-record converter *)



















(** The built-in test "malformed JSON tolerated" of the application. *)
Example malformed_json_tolerated :
  convertRowsToObjects
    (parseCSV ("id,bad" +++ ch LF +++ "1," +++ ch DQUOTE +++ "{notjson}" +++ ch DQUOTE) ",")
    (mkOptions true false true)
  = [[("id", VNum (num_of_nat 1)); ("bad", VStr "{notjson}")]].
Proof. reflexivity. Qed.

(** ** Order of binary64 values *)

Lemma b64_gt_nan_l (b : number) : b64_gt NaN b = false.
Proof. destruct b as [[]|[]| |[] m e]; reflexivity. Qed.

Lemma b64_gt_nan_r (a : number) : b64_gt a NaN = false.
Proof. destruct a as [[]|[]| |[] m e]; reflexivity. Qed.

Lemma b64_gt_key (a b : number) :
  is_nan a = false -> is_nan b = false ->
  (b64_gt a b = true <-> key_lt (order_key b) (order_key a)).
Proof.
  unfold b64_gt, SFltb.
  destruct a as [sa|sa| |sa ma ea]; destruct b as [sb|sb| |sb mb eb];
    try discriminate; intros _ _;
    try destruct sa; try destruct sb; cbn [SFcompare order_key key_lt];
    try (split; [discriminate | lia]);
    try (split; [lia | reflexivity]).
  - change (Pos.compare_cont Eq mb ma) with (Pos.compare mb ma).
    destruct (Z.compare_spec eb ea); destruct (Pos.compare_spec mb ma); cbn [CompOpp];
      split; try discriminate; try reflexivity; try lia.
  - change (Pos.compare_cont Eq mb ma) with (Pos.compare mb ma).
    destruct (Z.compare_spec eb ea); destruct (Pos.compare_spec mb ma);
      split; try discriminate; try reflexivity; try lia.
Qed.

Lemma b64_gt_not_nan (a b : number) :
  b64_gt a b = true -> is_nan a = false /\ is_nan b = false.
Proof.
  destruct a as [[]|[]| |[] ma ea]; destruct b as [[]|[]| |[] mb eb];
    try discriminate; intros _; split; reflexivity.
Qed.

Lemma b64_gt_irrefl (a : number) : b64_gt a a = false.
Proof.
  destruct (b64_gt a a) eqn:H; [|reflexivity].
  destruct (b64_gt_not_nan _ _ H) as [Ha _].
  apply (b64_gt_key a a Ha Ha) in H.
  destruct (order_key a) as [[a1 a2] a3]. simpl in H. lia.
Qed.

Lemma b64_gt_trans (a b c : number) :
  b64_gt a b = true -> b64_gt b c = true -> b64_gt a c = true.
Proof.
  intros Hab Hbc.
  destruct (b64_gt_not_nan _ _ Hab) as [Ha Hb].
  destruct (b64_gt_not_nan _ _ Hbc) as [_ Hc].
  apply (b64_gt_key a b Ha Hb) in Hab. apply (b64_gt_key b c Hb Hc) in Hbc.
  apply (b64_gt_key a c Ha Hc).
  destruct (order_key a) as [[a1 a2] a3], (order_key b) as [[b1 b2] b3],
           (order_key c) as [[c1 c2] c3].
  simpl in *. lia.
Qed.

Lemma b64_gt_asym (a b : number) : b64_gt a b = true -> b64_gt b a = false.
Proof.
  intros H. destruct (b64_gt b a) eqn:H'; [|reflexivity].
  pose proof (b64_gt_trans _ _ _ H H') as Haa. rewrite b64_gt_irrefl in Haa. discriminate.
Qed.

(** What is not above [b] is below whatever is above [b], unless it is NaN. *)
Lemma b64_gt_below (a b c : number) :
  b64_gt c b = false -> b64_gt a b = true -> b64_gt a c = true \/ c = NaN.
Proof.
  intros Hcb Hab.
  destruct (is_nan c) eqn:Hc; [right; destruct c; try discriminate; reflexivity|].
  left. destruct (b64_gt_not_nan _ _ Hab) as [Ha Hb].
  apply (b64_gt_key a c Ha Hc). apply (b64_gt_key a b Ha Hb) in Hab.
  assert (Hn : ~ key_lt (order_key b) (order_key c)).
  { intros H. apply (b64_gt_key c b Hc Hb) in H. congruence. }
  destruct (order_key a) as [[a1 a2] a3], (order_key b) as [[b1 b2] b3],
           (order_key c) as [[c1 c2] c3].
  simpl in *. lia.
Qed.

(** ** Delimiter detector *)

(** What the loop [if (score > bestScore) { bestScore = score; best = d; }]
    leaves in [(best, bestScore)]: either nothing scored above the initial
    score, or the pair of a candidate that no later candidate exceeds and
    that exceeds every earlier one. *)
Lemma select_fold_spec (score : string -> option number) (d0 : string) (s0 : number)
      (cands : list string) :
  (fold_left (select_step score) cands (d0, s0) = (d0, s0) /\
   forall d s, In d cands -> score d = Some s -> b64_gt s s0 = false) \/
  (exists before after,
      cands = before ++ fst (fold_left (select_step score) cands (d0, s0)) :: after /\
      score (fst (fold_left (select_step score) cands (d0, s0)))
        = Some (snd (fold_left (select_step score) cands (d0, s0))) /\
      b64_gt (snd (fold_left (select_step score) cands (d0, s0))) s0 = true /\
      (forall d s, In d after -> score d = Some s ->
                   b64_gt s (snd (fold_left (select_step score) cands (d0, s0))) = false) /\
      (forall d s, In d before -> score d = Some s ->
                   b64_gt (snd (fold_left (select_step score) cands (d0, s0))) s = true
                   \/ s = NaN)).
Proof.
  induction cands as [|d l IH] using rev_ind.
  - left. split; [reflexivity | intros d s []].
  - rewrite fold_left_app. cbn [fold_left].
    set (res := fold_left (select_step score) l (d0, s0)) in *.
    destruct (score d) as [s|] eqn:Hd;
      [ replace (select_step score res d) with (if b64_gt s (snd res) then (d, s) else res)
          by (unfold select_step; now rewrite Hd)
      | replace (select_step score res d) with res
          by (unfold select_step; now rewrite Hd) ].
    + destruct (b64_gt s (snd res)) eqn:Hgt.
      * right. exists l, []. cbn [fst snd]. split; [reflexivity|]. split; [exact Hd|].
        destruct IH as [[Hres Hall]|[before [after [Hl [Hb [Hb0 [Hafter Hbefore]]]]]]].
        -- rewrite Hres in Hgt. cbn [snd] in Hgt. split; [exact Hgt|].
           split; [intros d' s' []|].
           intros d' s' Hin Hs'. apply (b64_gt_below s s0 s'); [now apply (Hall d')|exact Hgt].
        -- split; [now apply (b64_gt_trans _ (snd res))|].
           split; [intros d' s' []|].
           intros d' s' Hin Hs'. rewrite Hl in Hin. apply in_app_or in Hin.
           destruct Hin as [Hin|[<-|Hin]].
           ++ destruct (Hbefore d' s' Hin Hs') as [H|H]; [|now right].
              left. now apply (b64_gt_trans _ (snd res)).
           ++ left. rewrite Hb in Hs'. injection Hs' as <-. exact Hgt.
           ++ apply (b64_gt_below s (snd res) s'); [now apply (Hafter d')|exact Hgt].
      * destruct IH as [[Hres Hall]|[before [after [Hl [Hb [Hb0 [Hafter Hbefore]]]]]]].
        -- left. split; [exact Hres|].
           intros d' s' Hin Hs'. apply in_app_or in Hin. destruct Hin as [Hin|[<-|[]]].
           ++ now apply (Hall d').
           ++ rewrite Hd in Hs'. injection Hs' as <-. rewrite Hres in Hgt. exact Hgt.
        -- right. exists before, (after ++ [d]).
           split; [rewrite Hl at 1; now rewrite <- app_assoc, <- app_comm_cons|].
           split; [exact Hb|]. split; [exact Hb0|]. split; [|exact Hbefore].
           intros d' s' Hin Hs'. apply in_app_or in Hin. destruct Hin as [Hin|[<-|[]]].
           ++ now apply (Hafter d').
           ++ rewrite Hd in Hs'. injection Hs' as <-. exact Hgt.
    + destruct IH as [[Hres Hall]|[before [after [Hl [Hb [Hb0 [Hafter Hbefore]]]]]]].
      * left. split; [exact Hres|].
        intros d' s' Hin Hs'. apply in_app_or in Hin. destruct Hin as [Hin|[<-|[]]].
        -- now apply (Hall d').
        -- congruence.
      * right. exists before, (after ++ [d]).
        split; [rewrite Hl at 1; now rewrite <- app_assoc, <- app_comm_cons|].
        split; [exact Hb|]. split; [exact Hb0|]. split; [|exact Hbefore].
        intros d' s' Hin Hs'. apply in_app_or in Hin. destruct Hin as [Hin|[<-|[]]].
        -- now apply (Hafter d').
        -- congruence.
Qed.

Lemma candidate_score_none (text d : string) :
  candidate_score text d = None <->
  List.length (parseCSV text d) < 2 \/ List.length (hd [] (parseCSV text d)) <= 1.
Proof.
  unfold candidate_score.
  destruct (Nat.ltb_spec (List.length (parseCSV text d)) 2) as [H|H].
  - split; [now left | reflexivity].
  - destruct (Nat.ltb_spec 1 (List.length (hd [] (parseCSV text d)))) as [H'|H'].
    + split; [discriminate | lia].
    + split; [now right | reflexivity].
Qed.

(** ** Magnitude of the detector's arithmetic

    [small K x]: [x] is a zero or a finite number below [2 ^ K] in absolute
    value.  The operations of the score keep their results small, so no
    score overflows. *)

Section BoundedMagnitude.
Local Open Scope Z_scope.

Lemma Zdigits2_log2 (p : positive) : Zdigits2 (Zpos p) = Z.succ (Z.log2 (Zpos p)).
Proof.
  assert (H : forall q, digits2_pos q = Pos.size q) by (induction q; simpl; congruence).
  simpl. rewrite H. destruct p; simpl; try reflexivity; now rewrite Pos.add_1_r.
Qed.

Lemma Zdigits2_bound (m D : Z) :
  0 <= m -> m < 2 ^ D -> Zdigits2 m <= D.
Proof.
  intros Hm Hlt. destruct m as [|p|p]; [|  |lia].
  - simpl. destruct (Z.ltb_spec D 0); [|lia].
    rewrite Z.pow_neg_r in Hlt by lia. lia.
  - rewrite Zdigits2_log2.
    destruct (Z.ltb_spec D 0) as [Hneg|Hpos].
    + rewrite Z.pow_neg_r in Hlt by lia. lia.
    + apply Z.log2_lt_pow2 in Hlt; lia.
Qed.

Lemma pow2_pos (a : Z) : 0 <= a -> 0 < 2 ^ a.
Proof. intros. apply Z.pow_pos_nonneg; lia. Qed.

Lemma lt_pow2_nonneg (m a : Z) : 0 <= m -> m < 2 ^ a -> 0 <= a.
Proof.
  intros Hm Hlt. destruct (Z.ltb_spec a 0); [|lia].
  rewrite Z.pow_neg_r in Hlt by lia. lia.
Qed.

Lemma shr_1_m (mrs : shr_record) :
  0 <= shr_m mrs -> shr_m (shr_1 mrs) = shr_m mrs / 2.
Proof.
  destruct mrs as [m r s]. simpl. intros Hm.
  destruct m as [|[p|p|]|p]; simpl; try lia; try reflexivity.
  - rewrite Pos2Z.inj_xI. apply (Z.div_unique _ _ _ 1); lia.
  - rewrite Pos2Z.inj_xO. apply (Z.div_unique _ _ _ 0); lia.
Qed.

Lemma pow2_double (p : positive) :
  2 ^ Zpos p~0 = 2 ^ Zpos p * 2 ^ Zpos p /\ 2 ^ Zpos p~1 = 2 * (2 ^ Zpos p * 2 ^ Zpos p).
Proof.
  replace (Zpos p~1) with (1 + (Z.pos p + Z.pos p)) by lia.
  replace (Zpos p~0) with (Z.pos p + Z.pos p) by lia.
  rewrite !Z.pow_add_r by lia. split; reflexivity.
Qed.

Lemma iter_shr_1_m (p : positive) :
  forall mrs, 0 <= shr_m mrs ->
    shr_m (iter_pos shr_1 p mrs) = shr_m mrs / 2 ^ Zpos p.
Proof.
  induction p as [p IH|p IH|]; intros mrs Hm; cbn [iter_pos].
  - assert (H1 : 0 <= shr_m (shr_1 mrs)) by (rewrite shr_1_m by lia; apply Z.div_pos; lia).
    assert (H2 : 0 <= shr_m (iter_pos shr_1 p (shr_1 mrs)))
      by (rewrite IH by lia; apply Z.div_pos; [lia | apply pow2_pos; lia]).
    rewrite IH by lia. rewrite IH by lia. rewrite shr_1_m by lia.
    pose proof (pow2_pos (Zpos p) ltac:(lia)) as Hp.
    rewrite (proj2 (pow2_double p)).
    rewrite !Z.div_div by lia. f_equal; lia.
  - assert (H2 : 0 <= shr_m (iter_pos shr_1 p mrs))
      by (rewrite IH by lia; apply Z.div_pos; [lia | apply pow2_pos; lia]).
    rewrite IH by lia. rewrite IH by lia.
    pose proof (pow2_pos (Zpos p) ltac:(lia)) as Hp.
    rewrite (proj1 (pow2_double p)).
    rewrite !Z.div_div by lia. reflexivity.
  - rewrite shr_1_m by lia. reflexivity.
Qed.

Lemma shr_record_of_loc_m (m : Z) (l : location) : shr_m (shr_record_of_loc m l) = m.
Proof. destruct l as [|[]]; reflexivity. Qed.

Lemma shr_fexp_bound (K m e : Z) (l : location) :
  0 <= m -> m < 2 ^ (K - e) -> -1074 <= K ->
  0 <= shr_m (fst (shr_fexp 53 1024 m e l)) /\
  shr_m (fst (shr_fexp 53 1024 m e l)) < 2 ^ (K - snd (shr_fexp 53 1024 m e l)).
Proof.
  intros Hm Hlt HK.
  pose proof (lt_pow2_nonneg _ _ Hm Hlt) as Hke.
  pose proof (Zdigits2_bound m (K - e) Hm Hlt) as Hd.
  unfold shr_fexp, shr.
  destruct (fexp 53 1024 (Zdigits2 m + e) - e) as [|p|p] eqn:Hn;
    cbn [fst snd]; try (rewrite shr_record_of_loc_m; split; lia).
  assert (Hfe : e + Zpos p <= K).
  { unfold fexp, emin in Hn. lia. }
  rewrite iter_shr_1_m by (rewrite shr_record_of_loc_m; lia).
  rewrite shr_record_of_loc_m. split.
  - apply Z.div_pos; [lia | apply pow2_pos; lia].
  - apply Z.div_lt_upper_bound; [apply pow2_pos; lia|].
    rewrite <- Z.pow_add_r by lia.
    replace (Z.pos p + (K - (e + Z.pos p))) with (K - e) by lia. exact Hlt.
Qed.

Lemma round_nearest_even_bound (m : Z) (l : location) :
  0 <= m -> 0 <= round_nearest_even m l <= m + 1.
Proof.
  intros Hm. destruct l as [|[]]; simpl; try lia.
  destruct (Z.even m); lia.
Qed.

(** Rounding keeps a small value finite. *)
Lemma binary_round_aux_small (K : Z) (sx : bool) (mx ex : Z) (lx : location) :
  0 <= mx -> mx < 2 ^ (K - ex) -> -1074 <= K -> K <= 970 ->
  small (K + 1) (binary_round_aux 53 1024 sx mx ex lx).
Proof.
  intros Hm Hlt HK1 HK2.
  unfold binary_round_aux.
  destruct (shr_fexp_bound K mx ex lx Hm Hlt HK1) as [H1 H2].
  destruct (shr_fexp 53 1024 mx ex lx) as [mrs' e'] eqn:E1. cbn [fst snd] in H1, H2.
  pose proof (round_nearest_even_bound (shr_m mrs') (loc_of_shr_record mrs') H1) as Hr.
  set (m2 := round_nearest_even (shr_m mrs') (loc_of_shr_record mrs')) in *.
  pose proof (lt_pow2_nonneg _ _ H1 H2) as Hke.
  assert (Hm2 : m2 < 2 ^ (K + 1 - e')).
  { replace (K + 1 - e') with (1 + (K - e')) by lia.
    rewrite Z.pow_add_r by lia. change (2 ^ 1) with 2. lia. }
  destruct (shr_fexp_bound (K + 1) m2 e' loc_Exact (proj1 Hr) Hm2 ltac:(lia)) as [H3 H4].
  destruct (shr_fexp 53 1024 m2 e' loc_Exact) as [mrs'' e''] eqn:E2. cbn [fst snd] in H3, H4.
  destruct (shr_m mrs'') as [|p|p] eqn:E3; [exact I| |lia].
  assert (He : e'' <= 970).
  { destruct (Z.leb_spec (K + 1 - e'') 0) as [Hle|Hgt]; [|lia].
    assert (2 ^ (K + 1 - e'') <= 1).
    { destruct (Z.eqb_spec (K + 1 - e'') 0) as [->|]; [simpl; lia|].
      rewrite Z.pow_neg_r by lia. lia. }
    lia. }
  replace (e'' <=? 1024 - 53) with true by (symmetry; apply Z.leb_le; lia).
  exact H4.
Qed.

Lemma pos_lt_pow2 (m : positive) (a : Z) : Zpos m < 2 ^ a -> 0 <= a.
Proof. apply lt_pow2_nonneg. lia. Qed.

Lemma small_mono (K K' : Z) (x : number) : small K x -> K <= K' -> small K' x.
Proof.
  destruct x as [s|s| |s m e]; simpl; auto. intros H HK.
  pose proof (pos_lt_pow2 _ _ H) as Hke.
  eapply Z.lt_le_trans; [exact H|]. apply Z.pow_le_mono_r; lia.
Qed.

Lemma iter_xO_pow (m d : positive) : Zpos (Pos.iter xO m d) = Zpos m * 2 ^ Zpos d.
Proof.
  apply (Pos.iter_ind _ xO m (fun p a => Zpos a = Zpos m * 2 ^ Zpos p)).
  - change (2 ^ 1) with 2. lia.
  - intros p a IH. rewrite Pos2Z.inj_succ, Z.pow_succ_r by lia.
    change (Zpos a~0) with (2 * Zpos a). lia.
Qed.

Lemma shl_align_value (m : positive) (e e' : Z) :
  e' <= e ->
  Zpos (fst (shl_align m e e')) = Zpos m * 2 ^ (e - e') /\ snd (shl_align m e e') = e'.
Proof.
  intros Hle. unfold shl_align. destruct (e' - e) as [|d|d] eqn:Hd; cbn [fst snd].
  - replace (e - e') with 0 by lia. simpl. lia.
  - lia.
  - rewrite iter_xO_pow. replace (e - e') with (Zpos d) by lia. split; reflexivity.
Qed.

Lemma shl_align_bound (K : Z) (m : positive) (e e' : Z) :
  Zpos m < 2 ^ (K - e) ->
  Zpos (fst (shl_align m e e')) < 2 ^ (K - snd (shl_align m e e')).
Proof.
  intros H. pose proof (pos_lt_pow2 _ _ H) as Hke.
  destruct (Z.leb_spec e' e) as [Hle|Hgt].
  - destruct (shl_align_value m e e' Hle) as [-> ->].
    replace (K - e') with ((K - e) + (e - e')) by lia.
    rewrite Z.pow_add_r by lia.
    apply Z.mul_lt_mono_pos_r; [apply pow2_pos; lia | exact H].
  - unfold shl_align. destruct (e' - e) as [|d|d] eqn:Hd; cbn [fst snd]; try exact H. lia.
Qed.

Lemma binary_round_small (K : Z) (sx : bool) (m : positive) (e : Z) :
  Zpos m < 2 ^ (K - e) -> -1074 <= K -> K <= 970 ->
  small (K + 1) (binary_round 53 1024 sx m e).
Proof.
  intros H HK1 HK2. unfold binary_round.
  pose proof (shl_align_bound K m e (fexp 53 1024 (Z.pos (digits2_pos m) + e)) H) as Hb.
  destruct (shl_align m e (fexp 53 1024 (Z.pos (digits2_pos m) + e))) as [mz ez].
  cbn [fst snd] in Hb. apply binary_round_aux_small; lia.
Qed.

Lemma binary_normalize_small (K z e : Z) (sz : bool) :
  Z.abs z < 2 ^ (K - e) -> -1074 <= K -> K <= 970 ->
  small (K + 1) (binary_normalize 53 1024 z e sz).
Proof.
  intros H HK1 HK2. destruct z as [|p|p]; simpl; [exact I| |];
    apply binary_round_small; auto.
Qed.

Lemma num_of_nat_small (K : Z) (n : nat) :
  Z.of_nat n < 2 ^ K -> K <= 970 -> small (K + 1) (num_of_nat n).
Proof.
  intros H HK. pose proof (lt_pow2_nonneg (Z.of_nat n) K (Nat2Z.is_nonneg n) H).
  unfold num_of_nat, num_of_Z. apply binary_normalize_small; try lia.
  rewrite Z.sub_0_r. lia.
Qed.

Lemma aligned_sum_bound (K : Z) (ma mb : positive) (ea eb : Z) (sa sb : bool) (sub : bool) :
  Zpos ma < 2 ^ (K - ea) -> Zpos mb < 2 ^ (K - eb) ->
  Z.abs ((if sub then Z.sub else Z.add)
           (cond_Zopp sa (Zpos (fst (shl_align ma ea (Z.min ea eb)))))
           (cond_Zopp sb (Zpos (fst (shl_align mb eb (Z.min ea eb))))))
  < 2 ^ (K + 1 - Z.min ea eb).
Proof.
  intros Ha Hb.
  pose proof (pos_lt_pow2 _ _ Ha) as Hka.
  pose proof (pos_lt_pow2 _ _ Hb) as Hkb.
  destruct (shl_align_value ma ea (Z.min ea eb) ltac:(lia)) as [-> _].
  destruct (shl_align_value mb eb (Z.min ea eb) ltac:(lia)) as [-> _].
  assert (Ha' : Zpos ma * 2 ^ (ea - Z.min ea eb) < 2 ^ (K - Z.min ea eb)).
  { replace (K - Z.min ea eb) with ((K - ea) + (ea - Z.min ea eb)) by lia.
    rewrite Z.pow_add_r by lia.
    apply Z.mul_lt_mono_pos_r; [apply pow2_pos; lia | exact Ha]. }
  assert (Hb' : Zpos mb * 2 ^ (eb - Z.min ea eb) < 2 ^ (K - Z.min ea eb)).
  { replace (K - Z.min ea eb) with ((K - eb) + (eb - Z.min ea eb)) by lia.
    rewrite Z.pow_add_r by lia.
    apply Z.mul_lt_mono_pos_r; [apply pow2_pos; lia | exact Hb]. }
  assert (Hpa : 0 < Zpos ma * 2 ^ (ea - Z.min ea eb))
    by (apply Z.mul_pos_pos; [lia | apply pow2_pos; lia]).
  assert (Hpb : 0 < Zpos mb * 2 ^ (eb - Z.min ea eb))
    by (apply Z.mul_pos_pos; [lia | apply pow2_pos; lia]).
  replace (K + 1 - Z.min ea eb) with (1 + (K - Z.min ea eb)) by lia.
  rewrite Z.pow_add_r by lia. change (2 ^ 1) with 2.
  destruct sub, sa, sb; unfold cond_Zopp; lia.
Qed.

Lemma b64_add_small (K : Z) (a b : number) :
  small K a -> small K b -> -1074 <= K -> K + 1 <= 970 -> small (K + 2) (b64_add a b).
Proof.
  intros Ha Hb HK1 HK2. unfold b64_add.
  destruct a as [sa|sa| |sa ma ea]; destruct b as [sb|sb| |sb mb eb];
    try contradiction; cbn [SFadd].
  - destruct sa, sb; exact I.
  - apply (small_mono K); [exact Hb | lia].
  - apply (small_mono K); [exact Ha | lia].
  - replace (K + 2) with ((K + 1) + 1) by lia.
    apply binary_normalize_small; try lia.
    apply (aligned_sum_bound K ma mb ea eb sa sb false); assumption.
Qed.

Lemma b64_sub_small (K : Z) (a b : number) :
  small K a -> small K b -> -1074 <= K -> K + 1 <= 970 -> small (K + 2) (b64_sub a b).
Proof.
  intros Ha Hb HK1 HK2. unfold b64_sub.
  destruct a as [sa|sa| |sa ma ea]; destruct b as [sb|sb| |sb mb eb];
    try contradiction; cbn [SFsub].
  - destruct sa, sb; exact I.
  - apply (small_mono K (K + 2) (S754_finite (negb sb) mb eb)); [exact Hb | lia].
  - apply (small_mono K); [exact Ha | lia].
  - replace (K + 2) with ((K + 1) + 1) by lia.
    apply binary_normalize_small; try lia.
    apply (aligned_sum_bound K ma mb ea eb sa sb true); assumption.
Qed.

Lemma b64_mul_small (Ka Kb : Z) (a b : number) :
  small Ka a -> small Kb b -> -1074 <= Ka + Kb -> Ka + Kb <= 970 ->
  small (Ka + Kb + 1) (b64_mul a b).
Proof.
  intros Ha Hb HK1 HK2. unfold b64_mul.
  destruct a as [sa|sa| |sa ma ea]; destruct b as [sb|sb| |sb mb eb];
    try contradiction; cbn [SFmul]; try exact I.
  simpl in Ha, Hb.
  pose proof (pos_lt_pow2 _ _ Ha) as Hka.
  pose proof (pos_lt_pow2 _ _ Hb) as Hkb.
  apply binary_round_aux_small; try lia.
  rewrite Pos2Z.inj_mul.
  replace (Ka + Kb - (ea + eb)) with ((Ka - ea) + (Kb - eb)) by lia.
  rewrite Z.pow_add_r by lia.
  apply Z.mul_lt_mono_nonneg; lia.
Qed.

Lemma b64_div_small (Ka : Z) (a : number) (sb : bool) (mb : positive) (eb : Z) :
  small Ka a -> -1074 <= Ka - eb -> Ka - eb <= 970 ->
  small (Ka - eb + 1) (b64_div a (S754_finite sb mb eb)).
Proof.
  intros Ha HK1 HK2. unfold b64_div.
  destruct a as [sa|sa| |sa ma ea]; try contradiction; cbn [SFdiv]; [exact I|].
  simpl in Ha. pose proof (pos_lt_pow2 _ _ Ha) as Hka.
  unfold SFdiv_core_binary.
  set (e' := Z.min (fexp 53 1024 (Zdigits2 (Z.pos ma) + ea - (Zdigits2 (Z.pos mb) + eb)))
                   (ea - eb)).
  set (s := ea - eb - e').
  set (m' := match s with Z.pos _ => Z.shiftl (Z.pos ma) s | 0 => Z.pos ma | Z.neg _ => 0 end).
  assert (Hs : 0 <= s) by (unfold s, e'; lia).
  assert (Hm' : 0 <= m' < 2 ^ (Ka - eb - e')).
  { assert (Hv : m' = Zpos ma * 2 ^ s).
    { unfold m'. destruct s as [|p|p] eqn:Es; [simpl; lia| |lia].
      rewrite Z.shiftl_mul_pow2 by lia. reflexivity. }
    rewrite Hv. split; [apply Z.mul_nonneg_nonneg; [lia | apply Z.lt_le_incl, pow2_pos; lia]|].
    replace (Ka - eb - e') with ((Ka - ea) + s) by (unfold s; lia).
    rewrite Z.pow_add_r by lia.
    apply Z.mul_lt_mono_pos_r; [apply pow2_pos; lia | exact Ha]. }
  pose proof (Z_div_mod m' (Zpos mb) ltac:(lia)) as Hdm.
  destruct (Z.div_eucl m' (Z.pos mb)) as [q r].
  destruct Hdm as [Hq Hr].
  apply binary_round_aux_small; try lia.
  - nia.
  - assert (q <= m') by nia. lia.
Qed.

End BoundedMagnitude.

(** ** Size of the table parsed from the first lines *)

Lemma count_LF_append (a b : string) : count_LF (a +++ b) = count_LF a + count_LF b.
Proof. induction a as [|c a IH]; simpl; [reflexivity | rewrite IH; lia]. Qed.

Lemma scan_rows_count (d : string) (text : string) :
  forall st, List.length (rows (scan d text st)) <= List.length (rows st) + count_LF text.
Proof.
  induction text as [|c rest IH]; intros st; [simpl; lia|].
  cbn [scan count_LF].
  destruct (inQuotes st).
  - destruct (Ascii.eqb c DQUOTE) eqn:Hc.
    + assert (HcLF : Ascii.eqb c LF = false).
      { apply Ascii.eqb_eq in Hc. subst c. reflexivity. }
      rewrite HcLF.
      destruct rest as [|n rest'].
      * eapply Nat.le_trans; [apply IH|]. simpl. lia.
      * destruct (Ascii.eqb n DQUOTE) eqn:Hn.
        -- pose proof (IH (mkScan (rows st) (row st) (push_char (field st) DQUOTE) false)) as H.
           cbn [scan inQuotes rows row field] in H. rewrite Hn in H.
           exact H.
        -- eapply Nat.le_trans; [apply IH|]. simpl. lia.
    + eapply Nat.le_trans; [apply IH|]. simpl. lia.
  - destruct (Ascii.eqb c DQUOTE) eqn:Hc.
    { eapply Nat.le_trans; [apply IH|]. simpl. lia. }
    destruct (String.eqb (ch c) d).
    { eapply Nat.le_trans; [apply IH|]. simpl. lia. }
    destruct (Ascii.eqb c LF).
    { eapply Nat.le_trans; [apply IH|]. simpl. rewrite length_app. simpl. lia. }
    destruct (Ascii.eqb c CR); eapply Nat.le_trans; try apply IH; simpl; lia.
Qed.

Lemma parseCSV_rows_count (text d : string) :
  List.length (parseCSV text d) <= count_LF text + 1.
Proof.
  unfold parseCSV, flush.
  pose proof (scan_rows_count d text scan_init) as H. simpl in H.
  destruct (_ || _); [rewrite length_app; simpl|]; lia.
Qed.

Lemma scan_row_lengths (d : string) (B : nat) (text : string) :
  forall st,
    Forall (fun r => List.length r <= B) (rows st) ->
    List.length (row st) + String.length text + 1 <= B ->
    Forall (fun r => List.length r <= B) (rows (scan d text st)) /\
    List.length (row (scan d text st)) + 1 <= B.
Proof.
  induction text as [|c rest IH]; intros st Hrows Hrow; [simpl in *; split; [auto|lia]|].
  cbn [scan]. cbn [String.length] in Hrow.
  destruct (inQuotes st).
  - destruct (Ascii.eqb c DQUOTE) eqn:Hc.
    + destruct rest as [|n rest'].
      * apply IH; simpl; [auto | lia].
      * destruct (Ascii.eqb n DQUOTE) eqn:Hn.
        -- pose proof (IH (mkScan (rows st) (row st) (push_char (field st) DQUOTE) false)
                          Hrows ltac:(simpl in *; lia)) as H.
           cbn [scan inQuotes rows row field] in H. rewrite Hn in H. exact H.
        -- apply IH; simpl in *; [auto | lia].
    + apply IH; simpl in *; [auto | lia].
  - destruct (Ascii.eqb c DQUOTE) eqn:Hc.
    { apply IH; simpl in *; [auto | lia]. }
    destruct (String.eqb (ch c) d).
    { apply IH; simpl in *; [auto | rewrite length_app; simpl; lia]. }
    destruct (Ascii.eqb c LF).
    { apply IH; simpl in *; [|lia].
      apply Forall_app. split; [auto|]. constructor; [|constructor].
      rewrite length_app. simpl. lia. }
    destruct (Ascii.eqb c CR); apply IH; simpl in *; auto; lia.
Qed.

Lemma parseCSV_row_lengths (text d : string) :
  Forall (fun r => List.length r <= String.length text + 1) (parseCSV text d).
Proof.
  unfold parseCSV, flush.
  destruct (scan_row_lengths d (String.length text + 1) text scan_init
              (Forall_nil _) ltac:(simpl; lia)) as [H1 H2].
  destruct (_ || _); [|exact H1].
  apply Forall_app. split; [exact H1|]. constructor; [|constructor].
  rewrite length_app. simpl. lia.
Qed.

Lemma split_lines_from_no_LF (s : string) :
  forall cur, count_LF cur = 0 ->
    Forall (fun p => count_LF p = 0) (split_lines_from cur s).
Proof.
  induction s as [|c rest IH]; intros cur Hcur; [simpl; auto|].
  cbn [split_lines_from].
  assert (Hpush : Ascii.eqb c LF = false -> count_LF (push_char cur c) = 0).
  { intros Hc. unfold push_char, ch. rewrite count_LF_append. simpl. rewrite Hc. lia. }
  destruct (Ascii.eqb c LF) eqn:Hc.
  - constructor; [exact Hcur | apply IH; reflexivity].
  - destruct (Ascii.eqb c CR).
    + destruct rest as [|c2 rest2]; [apply IH; auto|].
      destruct (Ascii.eqb c2 LF) eqn:Hc2; [|apply IH; auto].
      constructor; [exact Hcur|].
      pose proof (IH EmptyString eq_refl) as H. cbn [split_lines_from] in H.
      rewrite Hc2 in H. now apply Forall_inv_tail in H.
    + apply IH; auto.
Qed.

Lemma count_LF_join (ps : list string) :
  Forall (fun p => count_LF p = 0) ps ->
  count_LF (join (ch LF) ps) = List.length ps - 1.
Proof.
  unfold join. induction ps as [|p ps IH]; intros H; [reflexivity|].
  inversion H as [|? ? Hp Hps]; subst.
  destruct ps as [|p2 ps]; [simpl; lia|].
  change (String.concat (ch LF) (p :: p2 :: ps))
    with (p +++ ch LF +++ String.concat (ch LF) (p2 :: ps)).
  rewrite !count_LF_append, Hp, (IH Hps). simpl. lia.
Qed.

Lemma In_firstn {A : Type} (n : nat) (l : list A) (x : A) : In x (firstn n l) -> In x l.
Proof.
  revert l. induction n as [|n IH]; intros l H; [destruct H|].
  destruct l as [|a l]; [destruct H|]. simpl in H. destruct H as [H|H]; [now left|].
  right. now apply IH.
Qed.

Lemma first_lines_rows (sample d : string) :
  List.length (parseCSV (first_lines sample) d) <= 20.
Proof.
  eapply Nat.le_trans; [apply parseCSV_rows_count|].
  unfold first_lines. rewrite count_LF_join.
  - rewrite length_firstn. lia.
  - apply Forall_forall. intros p Hp.
    pose proof (split_lines_from_no_LF sample EmptyString eq_refl) as H.
    rewrite Forall_forall in H. apply H. unfold split_lines in Hp.
    now apply In_firstn in Hp.
Qed.

Lemma length_join_cons (sep p : string) (ps : list string) :
  String.length (join sep (p :: ps)) <=
  String.length p + String.length sep + String.length (join sep ps) /\
  (ps <> [] ->
   String.length (join sep (p :: ps)) =
   String.length p + String.length sep + String.length (join sep ps)) /\
  String.length p <= String.length (join sep (p :: ps)).
Proof.
  unfold join. destruct ps as [|p2 ps].
  - simpl. repeat split; try lia. intros H. now elim H.
  - change (String.concat sep (p :: p2 :: ps))
      with (p +++ sep +++ String.concat sep (p2 :: ps)).
    rewrite !length_append. repeat split; lia.
Qed.

Lemma split_lines_from_nonempty (s : string) :
  forall cur, split_lines_from cur s <> [].
Proof.
  induction s as [|c rest IH]; intros cur; [discriminate|].
  cbn [split_lines_from].
  destruct (Ascii.eqb c LF); [discriminate|].
  destruct (Ascii.eqb c CR); [|apply IH].
  destruct rest as [|c2 rest2]; [apply IH|].
  destruct (Ascii.eqb c2 LF); [discriminate | apply IH].
Qed.

Lemma split_lines_from_length (s : string) :
  forall cur,
    String.length (join (ch LF) (split_lines_from cur s)) <= String.length cur + String.length s.
Proof.
  induction s as [|c rest IH]; intros cur; [simpl; lia|].
  cbn [split_lines_from String.length].
  assert (Hpush : String.length (join (ch LF) (split_lines_from (push_char cur c) rest))
                  <= String.length cur + S (String.length rest)).
  { eapply Nat.le_trans; [apply IH|]. rewrite length_push_char. lia. }
  destruct (Ascii.eqb c LF) eqn:Hc.
  - destruct (length_join_cons (ch LF) cur (split_lines_from EmptyString rest)) as [H _].
    specialize (IH EmptyString). simpl in *. lia.
  - destruct (Ascii.eqb c CR); [|exact Hpush].
    destruct rest as [|c2 rest2]; [exact Hpush|].
    destruct (Ascii.eqb c2 LF) eqn:Hc2; [|exact Hpush].
    destruct (length_join_cons (ch LF) cur (split_lines_from EmptyString rest2)) as [H _].
    pose proof (IH EmptyString) as H0. cbn [split_lines_from] in H0. rewrite Hc2 in H0.
    destruct (length_join_cons (ch LF) EmptyString (split_lines_from EmptyString rest2))
      as [_ [H1 _]].
    rewrite (H1 (split_lines_from_nonempty rest2 EmptyString)) in H0.
    simpl in *. lia.
Qed.

Lemma join_firstn_length (sep : string) (n : nat) :
  forall ps, String.length (join sep (firstn n ps)) <= String.length (join sep ps).
Proof.
  induction n as [|n IH]; intros ps; [simpl; lia|].
  destruct ps as [|p ps]; [simpl; lia|].
  cbn [firstn].
  destruct (length_join_cons sep p (firstn n ps)) as [H1 _].
  destruct (length_join_cons sep p ps) as [_ [H2 H3]].
  destruct ps as [|p2 ps].
  - destruct n; simpl in *; lia.
  - rewrite (H2 ltac:(discriminate)). specialize (IH (p2 :: ps)).
    destruct (firstn n (p2 :: ps)) as [|q qs] eqn:E.
    + unfold join in *. simpl in *. lia.
    + lia.
Qed.

Lemma first_lines_length (sample : string) :
  String.length (first_lines sample) <= String.length sample.
Proof.
  unfold first_lines. eapply Nat.le_trans; [apply join_firstn_length|].
  apply (split_lines_from_length sample EmptyString).
Qed.

(** ** Scores are finite *)

Lemma fold_add_small (xs : list number) :
  forall (K : Z) (acc : number),
    Forall (small K) xs -> small K acc ->
    (-1074 <= K)%Z -> (K + 2 * Z.of_nat (List.length xs) <= 970)%Z ->
    small (K + 2 * Z.of_nat (List.length xs)) (fold_left b64_add xs acc).
Proof.
  induction xs as [|x xs IH]; intros K acc Hxs Hacc HK1 HK2.
  - simpl. now rewrite Z.add_0_r.
  - inversion Hxs as [|? ? Hx Hxs']; subst.
    cbn [fold_left List.length] in *.
    replace (K + 2 * Z.of_nat (S (List.length xs)))%Z
      with ((K + 2) + 2 * Z.of_nat (List.length xs))%Z by lia.
    apply IH; try lia.
    + apply Forall_forall. intros y Hy. rewrite Forall_forall in Hxs'.
      apply (small_mono K); [now apply Hxs' | lia].
    + apply b64_add_small; auto; lia.
Qed.

Lemma sum_num_small (K : Z) (xs : list number) :
  Forall (small K) xs -> (-1074 <= K)%Z -> (K + 2 * Z.of_nat (List.length xs) <= 970)%Z ->
  small (K + 2 * Z.of_nat (List.length xs)) (sum_num xs).
Proof. intros. apply fold_add_small; auto. exact I. Qed.

(** The number of rows, between 1 and 20, as a binary64 value. *)
Lemma count_as_number (n : nat) :
  1 <= n -> n <= 20 ->
  exists s m e, num_of_nat n = S754_finite s m e /\ (-52 <= e <= 0)%Z.
Proof.
  intros H1 H2.
  do 21 (destruct n as [|n];
         [first [lia | vm_compute; do 3 eexists; split; [reflexivity | split; discriminate]]|]).
  lia.
Qed.

Lemma small_nat (n : nat) : n <= 31 -> small 6 (num_of_nat n).
Proof.
  intros H. apply (num_of_nat_small 5); [|lia].
  change (2 ^ 5)%Z with 32%Z. lia.
Qed.

Lemma div_by_count_small (K : Z) (x : number) (n : nat) :
  small K x -> 1 <= n -> n <= 20 -> (-1074 <= K)%Z -> (K + 52 <= 970)%Z ->
  small (K + 53) (b64_div x (num_of_nat n)).
Proof.
  intros Hx H1 H2 HK1 HK2.
  destruct (count_as_number n H1 H2) as [s [m [e [-> He]]]].
  apply (small_mono (K - e + 1)); [|lia].
  destruct x as [sx|sx| |sx mx ex]; try contradiction.
  - exact I.
  - apply b64_div_small; try lia. exact Hx.
Qed.

Lemma small_isFinite (K : Z) (x : number) : small K x -> isFinite x = true.
Proof. destruct x; simpl; auto; contradiction. Qed.

Lemma isFinite_above_neg_Infinity (x : number) :
  isFinite x = true -> b64_gt x neg_Infinity = true /\ x <> NaN.
Proof. destruct x as [s|[|]| |s m e]; simpl; intros H; try discriminate; split;
         try reflexivity; try discriminate; destruct s; reflexivity. Qed.

Lemma filter_length_le {A : Type} (f : A -> bool) (l : list A) :
  List.length (filter f l) <= List.length l.
Proof. induction l as [|a l IH]; simpl; [lia|]. destruct (f a); simpl; lia. Qed.

Lemma matching_of_le (rs : list (list string)) :
  matching_of rs <= List.length rs.
Proof.
  unfold matching_of. cbv zeta.
  eapply Nat.le_trans; [apply filter_length_le|].
  eapply Nat.le_trans; [apply filter_length_le|].
  destruct rs; simpl; lia.
Qed.

Lemma nodup_length_le (l : list nat) :
  List.length (nodup Nat.eq_dec l) <= List.length l.
Proof.
  induction l as [|a l IH]; simpl; [lia|].
  destruct (in_dec Nat.eq_dec a l); simpl; lia.
Qed.

Lemma uniqueLens_of_le (lens : list nat) : uniqueLens_of lens <= List.length lens.
Proof. apply nodup_length_le. Qed.

Lemma small_count (n : nat) : n <= 20 -> small 6 (num_of_nat n).
Proof. intros H. apply small_nat. lia. Qed.

(** The mean of at most twenty lengths below [2 ^ 54]. *)
Lemma mean_of_small (lens : list nat) :
  1 <= List.length lens -> List.length lens <= 20 ->
  Forall (fun c => (Z.of_nat c < 2 ^ 54)%Z) lens ->
  small 148 (mean_of lens).
Proof.
  intros H1 H2 Hl. unfold mean_of.
  apply (div_by_count_small 95); try lia.
  apply (small_mono (55 + 2 * Z.of_nat (List.length (map num_of_nat lens)))).
  - apply sum_num_small; try lia; try (rewrite length_map; lia).
    apply Forall_forall. intros x Hx. apply in_map_iff in Hx.
    destruct Hx as [c [<- Hc]]. rewrite Forall_forall in Hl.
    apply (num_of_nat_small 54); [now apply Hl | lia].
  - rewrite length_map. lia.
Qed.

Lemma variance_of_small (lens : list nat) :
  1 <= List.length lens -> List.length lens <= 20 ->
  Forall (fun c => (Z.of_nat c < 2 ^ 54)%Z) lens ->
  small 394 (variance_of lens).
Proof.
  intros H1 H2 Hl. unfold variance_of.
  apply (div_by_count_small 341); try lia.
  set (f := fun c => b64_sq (b64_sub (num_of_nat c) (mean_of lens))).
  apply (small_mono (301 + 2 * Z.of_nat (List.length (map f lens)))).
  - apply sum_num_small; try lia; try (rewrite length_map; lia).
    apply Forall_forall. intros x Hx. apply in_map_iff in Hx.
    destruct Hx as [c [<- Hc]]. unfold f, b64_sq.
    assert (Hd : small 150 (b64_sub (num_of_nat c) (mean_of lens))).
    { apply (b64_sub_small 148); try lia.
      - apply (small_mono 55); [|lia]. rewrite Forall_forall in Hl.
        apply (num_of_nat_small 54); [now apply Hl | lia].
      - now apply mean_of_small. }
    apply (b64_mul_small 150 150); auto; lia.
  - rewrite length_map. lia.
Qed.

Lemma score_of_small (rs : list (list string)) :
  1 <= List.length rs -> List.length rs <= 20 ->
  Forall (fun r => (Z.of_nat (List.length r) < 2 ^ 54)%Z) rs ->
  small 405 (score_of rs).
Proof.
  intros H1 H2 Hl. unfold score_of.
  assert (Hlens : Forall (fun c => (Z.of_nat c < 2 ^ 54)%Z) (row_lens rs)).
  { unfold row_lens. apply Forall_forall. intros c Hc. apply in_map_iff in Hc.
    destruct Hc as [r [<- Hr]]. rewrite Forall_forall in Hl. now apply Hl. }
  assert (Hn : List.length (row_lens rs) = List.length rs)
    by (unfold row_lens; apply length_map).
  apply (b64_sub_small 403); try lia.
  - apply (b64_sub_small 401); try lia.
    + apply (small_mono (6 + 8 + 1)); [|lia]. apply b64_mul_small; try lia.
      * apply small_count. pose proof (matching_of_le rs). lia.
      * apply (num_of_nat_small 7); [|lia]. change (2 ^ 7)%Z with 128%Z. lia.
    + apply (b64_mul_small 394 6); try lia.
      * apply variance_of_small; auto; lia.
      * apply small_count; lia.
  - apply (small_mono (8 + 6 + 1)); [|lia]. apply b64_mul_small; try lia.
    + apply (b64_sub_small 6); try lia.
      * apply small_count. pose proof (uniqueLens_of_le (row_lens rs)). lia.
      * apply small_count; lia.
    + apply small_count; lia.
Qed.

(** Every score computed on a sample of at most [2 ^ 53 - 1] characters,
    the longest string of the language, is a finite number. *)
Lemma candidate_score_finite (sample d : string) (s : number) :
  (Z.of_nat (String.length sample) < 2 ^ 53)%Z ->
  candidate_score (first_lines sample) d = Some s ->
  isFinite s = true.
Proof.
  intros Hlen H. unfold candidate_score in H. cbv zeta in H.
  destruct (List.length (parseCSV (first_lines sample) d) <? 2) eqn:E2; [discriminate|].
  destruct (1 <? List.length (hd [] (parseCSV (first_lines sample) d))); [|discriminate].
  injection H as <-. apply Nat.ltb_ge in E2.
  apply (small_isFinite 405). apply score_of_small; [lia | apply first_lines_rows |].
  pose proof (parseCSV_row_lengths (first_lines sample) d) as Hr.
  pose proof (first_lines_length sample) as Hfl.
  apply Forall_forall. intros r Hin. rewrite Forall_forall in Hr.
  specialize (Hr r Hin). cbv beta in Hr.
  assert (Z.of_nat (List.length r) <= Z.of_nat (String.length sample) + 1)%Z by lia.
  change (2 ^ 54)%Z with (2 * 2 ^ 53)%Z. 
  assert (0 < 2 ^ 53)%Z by (apply Z.pow_pos_nonneg; lia). lia.
Qed.

(** C5.  The detector tries comma, tab, semicolon, pipe and colon, in that
    order, on the first 20 lines of the sample; a candidate with fewer than
    2 rows or a header of at most 1 column has no score; the score of the
    others is [matching*100 - variance*10 - (uniqueLens-1)*5], a finite
    number; the result is the first-seen candidate with the highest score
    (no candidate's score is greater than the winner's, and the score of
    every candidate tried before it is strictly less), and comma when no
    candidate has a score.  The sample is a string of the language: at most
    [2 ^ 53 - 1] characters. *)
Theorem detect_first_strict_maximum (sample : string) :
  (Z.of_nat (String.length sample) < 2 ^ 53)%Z ->
  CANDIDATES = [","; ch TAB; ";"; "|"; ":"] /\
  first_lines sample = join (ch LF) (firstn 20 (split_lines sample)) /\
  (forall d, candidate_score (first_lines sample) d = None <->
             List.length (parseCSV (first_lines sample) d) < 2 \/
             List.length (hd [] (parseCSV (first_lines sample) d)) <= 1) /\
  (forall d s, candidate_score (first_lines sample) d = Some s ->
     s = b64_sub
           (b64_sub (b64_mul (num_of_nat (matching_of (parseCSV (first_lines sample) d)))
                             (num_of_nat 100))
                    (b64_mul (variance_of (row_lens (parseCSV (first_lines sample) d)))
                             (num_of_nat 10)))
           (b64_mul (b64_sub (num_of_nat (uniqueLens_of
                                            (row_lens (parseCSV (first_lines sample) d))))
                             (num_of_nat 1))
                    (num_of_nat 5)) /\
     isFinite s = true) /\
  ((forall d, In d CANDIDATES -> candidate_score (first_lines sample) d = None) ->
   detectDelimiterByStructure sample = ",") /\
  (forall d, In d CANDIDATES -> candidate_score (first_lines sample) d <> None ->
     exists before after best_score,
       CANDIDATES = before ++ detectDelimiterByStructure sample :: after /\
       candidate_score (first_lines sample) (detectDelimiterByStructure sample)
         = Some best_score /\
       (forall d' s', In d' CANDIDATES ->
                      candidate_score (first_lines sample) d' = Some s' ->
                      b64_gt s' best_score = false) /\
       (forall d' s', In d' before ->
                      candidate_score (first_lines sample) d' = Some s' ->
                      b64_gt best_score s' = true)).
Proof.
  intros Hlen.
  split; [reflexivity|]. split; [reflexivity|]. split; [apply candidate_score_none|].
  split.
  { intros d s H. split; [|now apply (candidate_score_finite sample d)].
    unfold candidate_score in H.
    destruct (List.length (parseCSV (first_lines sample) d) <? 2); [discriminate|].
    destruct (1 <? List.length (hd [] (parseCSV (first_lines sample) d))); [|discriminate].
    injection H as <-. reflexivity. }
  unfold detectDelimiterByStructure. cbv zeta.
  change (detect_step (first_lines sample))
    with (select_step (candidate_score (first_lines sample))).
  pose proof (select_fold_spec (candidate_score (first_lines sample)) "," neg_Infinity
                CANDIDATES) as Hsel.
  set (res := fold_left (select_step (candidate_score (first_lines sample))) CANDIDATES
                        (",", neg_Infinity)) in *.
  split.
  - intros Hnone.
    destruct Hsel as [[Hres _]|[before [after [Hl [Hb _]]]]]; [now rewrite Hres|].
    assert (Hin : In (fst res) CANDIDATES).
    { rewrite Hl. apply in_or_app. right. now left. }
    rewrite (Hnone _ Hin) in Hb. discriminate.
  - intros d Hin Hs.
    destruct (candidate_score (first_lines sample) d) as [s|] eqn:Hd; [|congruence].
    destruct Hsel as [[_ Hall]|[before [after [Hl [Hb [Hb0 [Hafter Hbefore]]]]]]].
    + pose proof (candidate_score_finite sample d s Hlen Hd) as Hfin.
      apply isFinite_above_neg_Infinity in Hfin.
      rewrite (Hall d s Hin Hd) in Hfin. destruct Hfin. discriminate.
    + assert (Hlt : forall d' s', In d' before ->
                      candidate_score (first_lines sample) d' = Some s' ->
                      b64_gt (snd res) s' = true).
      { intros d' s' Hin' Hs'. destruct (Hbefore d' s' Hin' Hs') as [H|H]; [exact H|].
        pose proof (candidate_score_finite sample d' s' Hlen Hs') as Hfin.
        apply isFinite_above_neg_Infinity in Hfin. destruct Hfin. contradiction. }
      exists before, after, (snd res). split; [exact Hl|]. split; [exact Hb|].
      split; [|exact Hlt].
      intros d' s' Hin' Hs'. rewrite Hl in Hin'. apply in_app_or in Hin'.
      destruct Hin' as [Hin'|[<-|Hin']].
      * apply b64_gt_asym. now apply (Hlt d').
      * rewrite Hb in Hs'. injection Hs' as <-. apply b64_gt_irrefl.
      * now apply (Hafter d').
Qed.

(** The two detection samples of the specification. *)
Example detect_tab :
  detectDelimiterByStructure ("a" +++ ch TAB +++ "b" +++ ch LF +++ "X" +++ ch TAB +++ "Y")
  = ch TAB.
Proof. vm_compute. reflexivity. Qed.

Example detect_comma_in_quoted_table :
  detectDelimiterByStructure
    (ch DQUOTE +++ "userId" +++ ch DQUOTE +++ "," +++ ch DQUOTE +++ "facility" +++ ch DQUOTE
       +++ ch LF +++ ch DQUOTE +++ "abc" +++ ch DQUOTE +++ "," +++ ch DQUOTE +++ "x" +++ ch DQUOTE)
  = ",".
Proof. vm_compute. reflexivity. Qed.

(** ** Type inferrer *)

Lemma char_classes (c : ascii) :
  (is_digit c = true ->
   Ascii.eqb c "-" = false /\ Ascii.eqb c "+" = false /\ Ascii.eqb c "." = false /\
   is_e c = false) /\
  (is_e c = true -> is_digit c = false /\ Ascii.eqb c "." = false) /\
  (Ascii.eqb c "." = true -> is_digit c = false).
Proof.
  destruct c as [[] [] [] [] [] [] [] []]; vm_compute; repeat split; congruence.
Qed.

Lemma lower_char_letters (c : ascii) :
  forallb (fun k => Bool.eqb (Ascii.eqb (lower_char c) k) (same_letter k c))
          (list_ascii_of_string "nultrefas") = true.
Proof. destruct c as [[] [] [] [] [] [] [] []]; vm_compute; reflexivity. Qed.

Lemma toLowerCase_keyword (kw t : string) :
  (forall k, In k (list_ascii_of_string kw) -> In k (list_ascii_of_string "nultrefas")) ->
  String.eqb (toLowerCase t) kw = eq_ignore_case kw t.
Proof.
  revert t. induction kw as [|k kw IH]; intros t Hkw.
  - destruct t; reflexivity.
  - destruct t as [|c t]; [reflexivity|].
    cbn [toLowerCase String.eqb eq_ignore_case].
    rewrite IH by (intros k' Hk'; apply Hkw; now right).
    pose proof (lower_char_letters c) as H. rewrite forallb_forall in H.
    specialize (H k (Hkw k (or_introl eq_refl))). apply Bool.eqb_prop in H.
    rewrite H. destruct (same_letter k c); reflexivity.
Qed.

Lemma span_digits_spec (s : string) :
  s = fst (span_digits s) +++ snd (span_digits s) /\
  all_digits (fst (span_digits s)) = true /\
  starts_non_digit (snd (span_digits s)).
Proof.
  induction s as [|c s IH]; simpl.
  - repeat split.
  - destruct (is_digit c) eqn:Hc.
    + destruct (span_digits s) as [ds r]. simpl in *. destruct IH as [H1 [H2 H3]].
      repeat split; [now f_equal | unfold all_digits; simpl; now rewrite Hc | exact H3].
    + simpl. repeat split. exact Hc.
Qed.

Lemma span_digits_app (ds r : string) :
  all_digits ds = true -> starts_non_digit r -> span_digits (ds +++ r) = (ds, r).
Proof.
  intros Hds Hr. induction ds as [|c ds IH]; simpl.
  - destruct r as [|c r]; [reflexivity|]. simpl in Hr. simpl. now rewrite Hr.
  - unfold all_digits in Hds. simpl in Hds. apply andb_true_iff in Hds.
    destruct Hds as [Hc Hds]. rewrite Hc, (IH Hds). reflexivity.
Qed.

Lemma digits1_all (s : string) :
  digits1 s = true <-> s <> EmptyString /\ all_digits s = true.
Proof.
  destruct s; simpl; unfold all_digits; simpl.
  - split; [discriminate | intros [H _]; now elim H].
  - split; [intros H; split; [discriminate | exact H] | intros [_ H]; exact H].
Qed.

Lemma digits1_head (s : string) :
  digits1 s = true -> exists c s', s = String c s' /\ is_digit c = true.
Proof.
  destruct s as [|c s']; [discriminate|]. simpl. intros H.
  apply andb_true_iff in H. exists c, s'. now split.
Qed.

Lemma strip_sign_digit (b : bool) (c : ascii) (s : string) :
  is_digit c = true -> strip_sign b (String c s) = (false, String c s).
Proof.
  intros Hc. destruct (proj1 (char_classes c) Hc) as [H1 [H2 _]].
  unfold strip_sign. rewrite H1, H2. now rewrite andb_false_r.
Qed.

Lemma parse_exponent_iff (s : string) :
  (exists z, parse_exponent s = Some z) <-> ExponentPart s.
Proof.
  unfold ExponentPart. destruct s as [|c s].
  - split; [now left | intros _; now exists 0%Z].
  - unfold parse_exponent. split.
    + intros [z Hz]. right.
      destruct (is_e c) eqn:He; [|discriminate].
      destruct (strip_sign false s) as [neg s1] eqn:Hs.
      pose proof (span_digits_spec s1) as [H1 [H2 _]].
      destruct (span_digits s1) as [ds r]. simpl in H1, H2.
      destruct ds as [|d ds]; [discriminate|]. destruct r; [|discriminate].
      rewrite append_empty_r in H1. subst s1.
      assert (Hd : digits1 (String d ds) = true) by exact H2.
      unfold strip_sign in Hs. destruct s as [|a s'].
      * injection Hs as _ Hs. discriminate.
      * destruct (Ascii.eqb_spec a "-") as [->|Hm].
        { injection Hs as _ ->. exists c, "-", (String d ds). repeat split; auto. }
        cbn [negb andb] in Hs. destruct (Ascii.eqb_spec a "+") as [->|Hp].
        { injection Hs as _ ->. exists c, "+", (String d ds). repeat split; auto. }
        injection Hs as _ -> ->.
        exists c, EmptyString, (String d ds). repeat split; auto.
    + intros [H|[e [sg [ds [Heq [He [Hsg Hds]]]]]]]; [discriminate|].
      injection Heq as -> ->. rewrite He.
      destruct (digits1_head ds Hds) as [d [ds' [-> Hd]]].
      apply digits1_all in Hds. destruct Hds as [_ Hall].
      assert (Hspan : span_digits (String d ds') = (String d ds', EmptyString)).
      { rewrite <- (append_empty_r (String d ds')) at 1.
        now apply span_digits_app. }
      destruct Hsg as [ -> | [ -> | -> ] ].
      * cbn [append]. rewrite strip_sign_digit by exact Hd. cbv iota.
        rewrite Hspan. now eexists.
      * change (strip_sign false ("+" +++ String d ds')) with (false, String d ds').
        cbv iota. rewrite Hspan. now eexists.
      * change (strip_sign false ("-" +++ String d ds')) with (true, String d ds').
        cbv iota. rewrite Hspan. now eexists.
Qed.

Lemma parse_exponent_bool (s : string) :
  match parse_exponent s with Some _ => true | None => false end = true <-> ExponentPart s.
Proof.
  rewrite <- parse_exponent_iff. destruct (parse_exponent s) as [z|].
  - split; [intros _; now exists z | reflexivity].
  - split; [discriminate | intros [z Hz]; discriminate].
Qed.

Lemma ExponentPart_starts_non_digit (ex : string) :
  ExponentPart ex -> starts_non_digit ex /\ after_dot ex = None.
Proof.
  intros [->|[e [sg [ds [-> [He _]]]]]]; [now split|].
  destruct (proj1 (proj2 (char_classes e)) He) as [H1 H2].
  simpl. now rewrite H2.
Qed.

(** The matcher of the embedding accepts exactly the texts of the pattern. *)
Lemma matches_number_pattern_iff (t : string) :
  matches_number_pattern t = true <-> NumericPattern t.
Proof.
  unfold matches_number_pattern, NumericPattern. split.
  - destruct (strip_sign true t) as [neg t1] eqn:Hsign.
    pose proof (span_digits_spec t1) as [H1 [H2 _]].
    destruct (span_digits t1) as [ip r1]. simpl in H1, H2.
    destruct ip as [|d ip']; [discriminate|].
    assert (Hsg : exists sign, t = sign +++ t1 /\ (sign = EmptyString \/ sign = "-")).
    { unfold strip_sign in Hsign. destruct t as [|a t'].
      - injection Hsign as _ <-. exists EmptyString. split; auto.
      - destruct (Ascii.eqb_spec a "-") as [->|Hm].
        + injection Hsign as _ <-. exists "-". split; auto.
        + cbn [negb andb] in Hsign. injection Hsign as _ <-. exists EmptyString. split; auto. }
    destruct Hsg as [sign [Ht Hsign']].
    destruct (after_dot r1) as [r2|] eqn:Hdot.
    + pose proof (span_digits_spec r2) as [H3 [H4 _]].
      destruct (span_digits r2) as [fp r3]. simpl in H3, H4.
      destruct fp as [|f fp']; [discriminate|].
      intros Hex. apply parse_exponent_bool in Hex.
      destruct r1 as [|c r1']; [discriminate|]. simpl in Hdot.
      destruct (Ascii.eqb_spec c ".") as [->|]; [|discriminate].
      injection Hdot as ->.
      exists sign, (String d ip'), ("." +++ String f fp'), r3.
      split; [|split; [exact Hsign'|split; [exact H2|split; [|exact Hex]]]].
      * rewrite Ht, H1, H3. cbn [append]. reflexivity.
      * right. exists (String f fp'). split; [reflexivity | exact H4].
    + intros Hex. apply parse_exponent_bool in Hex.
      exists sign, (String d ip'), EmptyString, r1.
      split; [|split; [exact Hsign'|split; [exact H2|split; [now left|exact Hex]]]].
      rewrite Ht, H1. reflexivity.
  - intros [sign [ip [frac [ex [Ht [Hsign [Hip [Hfrac Hex]]]]]]]].
    destruct (digits1_head ip Hip) as [d [ip' [-> Hd]]].
    apply digits1_all in Hip. destruct Hip as [_ Hall].
    destruct (ExponentPart_starts_non_digit ex Hex) as [Hex1 Hex2].
    assert (Hstrip : strip_sign true t = (match sign with EmptyString => false | _ => true end,
                                          String d ip' +++ frac +++ ex)).
    { subst t. destruct Hsign as [->| ->].
      - cbn [append]. now apply strip_sign_digit.
      - reflexivity. }
    rewrite Hstrip.
    assert (Hrest : starts_non_digit (frac +++ ex)).
    { destruct Hfrac as [->|[fp [-> _]]]; [exact Hex1 | reflexivity]. }
    rewrite (span_digits_app (String d ip') (frac +++ ex) Hall Hrest).
    destruct Hfrac as [->|[fp [-> Hfp]]].
    + cbn [append]. rewrite Hex2. now apply parse_exponent_bool.
    + cbn [append after_dot]. change (Ascii.eqb "." ".") with true. cbv iota.
      destruct (digits1_head fp Hfp) as [f [fp' [-> Hf]]].
      apply digits1_all in Hfp. destruct Hfp as [_ Hfall].
      rewrite (span_digits_app (String f fp') ex Hfall Hex1).
      now apply parse_exponent_bool.
Qed.

Fact double_123_45_nearest :
  (2 ^ 52 <= 8687021468732621 < 2 ^ 53)%Z /\
  (2 * Z.abs (8687021468732621 * 100 - 12345 * 2 ^ 46) <= 100)%Z /\
  decimal_to_number false 12345 (-2) = double_123_45.
Proof. repeat split; vm_compute; congruence. Qed.

Lemma first_letters_distinct (c : ascii) :
  (same_letter "n" c = true -> same_letter "t" c = false /\ same_letter "f" c = false) /\
  (same_letter "t" c = true -> same_letter "f" c = false).
Proof. destruct c as [[] [] [] [] [] [] [] []]; vm_compute; repeat split; congruence. Qed.

Lemma keywords_disjoint (t : string) :
  (eq_ignore_case "null" t = true ->
   eq_ignore_case "true" t = false /\ eq_ignore_case "false" t = false) /\
  (eq_ignore_case "true" t = true -> eq_ignore_case "false" t = false) /\
  (t = EmptyString ->
   eq_ignore_case "null" t = false /\ eq_ignore_case "true" t = false /\
   eq_ignore_case "false" t = false).
Proof.
  destruct t as [|c t]; [repeat split; discriminate|].
  destruct (first_letters_distinct c) as [Hn Ht].
  cbn [eq_ignore_case]. split; [|split; [|discriminate]].
  - intros H. apply andb_true_iff in H. destruct H as [H _].
    destruct (Hn H) as [H1 H2]. now rewrite H1, H2.
  - intros H. apply andb_true_iff in H. destruct H as [H _].
    now rewrite (Ht H).
Qed.

(** C7.  On a string, [inferScalar] trims; a blank string is returned as it
    is; the words null, true and false, in any letter case, give null and
    the booleans; otherwise a text of the numeric pattern whose value is
    finite gives that number, and any other text is returned untrimmed.
    The five strings of the specification give null, true, false, 123.45
    and the empty string. *)
Theorem inferScalar_string (s : string) :
  (trim s = EmptyString -> inferScalar (VStr s) = VStr s) /\
  (eq_ignore_case "null" (trim s) = true -> inferScalar (VStr s) = VNull) /\
  (eq_ignore_case "true" (trim s) = true -> inferScalar (VStr s) = VBool true) /\
  (eq_ignore_case "false" (trim s) = true -> inferScalar (VStr s) = VBool false) /\
  (trim s <> EmptyString ->
   eq_ignore_case "null" (trim s) = false ->
   eq_ignore_case "true" (trim s) = false ->
   eq_ignore_case "false" (trim s) = false ->
   (NumericPattern (trim s) /\ isFinite (string_to_number (trim s)) = true ->
    inferScalar (VStr s) = VNum (string_to_number (trim s))) /\
   (~ (NumericPattern (trim s) /\ isFinite (string_to_number (trim s)) = true) ->
    inferScalar (VStr s) = VStr s)) /\
  inferScalar (VStr "null") = VNull /\
  inferScalar (VStr "true") = VBool true /\
  inferScalar (VStr "false") = VBool false /\
  inferScalar (VStr "123.45") = VNum double_123_45 /\
  inferScalar (VStr EmptyString) = VStr EmptyString.
Proof.
  assert (Hn : String.eqb (toLowerCase (trim s)) "null" = eq_ignore_case "null" (trim s)).
  { apply toLowerCase_keyword. intros k Hk. vm_compute in Hk. vm_compute. tauto. }
  assert (Ht : String.eqb (toLowerCase (trim s)) "true" = eq_ignore_case "true" (trim s)).
  { apply toLowerCase_keyword. intros k Hk. vm_compute in Hk. vm_compute. tauto. }
  assert (Hf : String.eqb (toLowerCase (trim s)) "false" = eq_ignore_case "false" (trim s)).
  { apply toLowerCase_keyword. intros k Hk. vm_compute in Hk. vm_compute. tauto. }
  destruct (keywords_disjoint (trim s)) as [Dn [Dt De]].
  unfold inferScalar. rewrite Hn, Ht, Hf.
  split; [intros H; now rewrite H|].
  split.
  { intros H. destruct (String.eqb_spec (trim s) EmptyString) as [E|_].
    - destruct (De E) as [E0 _]. congruence.
    - now rewrite H. }
  split.
  { intros H. destruct (String.eqb_spec (trim s) EmptyString) as [E|_].
    - destruct (De E) as [_ [E0 _]]. congruence.
    - destruct (eq_ignore_case "null" (trim s)) eqn:E0; [|now rewrite H].
      destruct (Dn eq_refl) as [E1 _]. congruence. }
  split.
  { intros H. destruct (String.eqb_spec (trim s) EmptyString) as [E|_].
    - destruct (De E) as [_ [_ E0]]. congruence.
    - destruct (eq_ignore_case "null" (trim s)) eqn:E0.
      { destruct (Dn eq_refl) as [_ E1]. congruence. }
      destruct (eq_ignore_case "true" (trim s)) eqn:E1; [|now rewrite H].
      pose proof (Dt eq_refl). congruence. }
  split.
  { intros Hne H0 H1 H2. apply String.eqb_neq in Hne. rewrite Hne, H0, H1, H2.
    split.
    - intros [Hp Hfin]. apply matches_number_pattern_iff in Hp. now rewrite Hp, Hfin.
    - intros Hnot.
      destruct (matches_number_pattern (trim s)) eqn:Hp; [|reflexivity].
      destruct (isFinite (string_to_number (trim s))) eqn:Hfin; [|reflexivity].
      exfalso. apply Hnot. split; [now apply matches_number_pattern_iff | reflexivity]. }
  repeat split.
Qed.

Lemma inferScalar_string_witness :
  inferScalar (VStr " 42 ") = VNum (string_to_number "42") /\
  inferScalar (VStr " TRUE") = VBool true /\
  inferScalar (VStr "12a") = VStr "12a".
Proof.
  assert (Hne : forall a b : string, String.eqb a b = false -> a <> b)
    by (intros a b H; now apply String.eqb_neq).
  split; [|split].
  - apply (proj1 (proj1 (proj2 (proj2 (proj2 (proj2 (inferScalar_string " 42 ")))))
                    (Hne (trim " 42 ") EmptyString eq_refl) eq_refl eq_refl eq_refl)).
    split; [apply matches_number_pattern_iff|]; reflexivity.
  - apply (proj1 (proj2 (proj2 (inferScalar_string " TRUE")))). reflexivity.
  - apply (proj2 (proj1 (proj2 (proj2 (proj2 (proj2 (inferScalar_string "12a")))))
                    (Hne (trim "12a") EmptyString eq_refl) eq_refl eq_refl eq_refl)).
    intros [Hp _]. apply matches_number_pattern_iff in Hp. discriminate.
Defined.

Lemma detect_first_strict_maximum_witness :
  (Z.of_nat (String.length tab_sample) < 2 ^ 53)%Z /\
  exists before after best_score,
    CANDIDATES = before ++ detectDelimiterByStructure tab_sample :: after /\
    candidate_score (first_lines tab_sample) (detectDelimiterByStructure tab_sample)
      = Some best_score /\
    (forall d' s', In d' CANDIDATES ->
                   candidate_score (first_lines tab_sample) d' = Some s' ->
                   b64_gt s' best_score = false) /\
    (forall d' s', In d' before ->
                   candidate_score (first_lines tab_sample) d' = Some s' ->
                   b64_gt best_score s' = true).
Proof.
  assert (Hlen : (Z.of_nat (String.length tab_sample) < 2 ^ 53)%Z) by reflexivity.
  split; [exact Hlen|].
  apply (proj2 (proj2 (proj2 (proj2 (proj2 (detect_first_strict_maximum tab_sample Hlen)))))
           (ch TAB)).
  - right. left. reflexivity.
  - vm_compute. discriminate.
Defined.

(** ** Values of the runtime are well formed *)

Lemma forallb_snoc {A : Type} (f : A -> bool) (l : list A) (x : A) :
  forallb f l = true -> f x = true -> forallb f (l ++ [x]) = true.
Proof. intros Hl Hx. rewrite forallb_app, Hl. simpl. now rewrite Hx. Qed.

Lemma obj_set_values_wf (acc : entries) (k : string) (v : Value) :
  forallb (fun kv => wf_value (snd kv)) acc = true ->
  wf_value v = true ->
  forallb (fun kv => wf_value (snd kv)) (obj_set acc k v) = true.
Proof.
  intros Hacc Hv. rewrite forallb_forall in *. intros kv Hin.
  apply in_obj_set in Hin. destruct Hin as [[_ ->]|Hin]; [exact Hv | now apply Hacc].
Qed.

Lemma json_literal_wf (s : string) (v : Value) (r : string) :
  json_literal s = Some (v, r) -> wf_value v = true.
Proof.
  unfold json_literal.
  destruct (strip_prefix "true" s); [intros H; injection H as <- _; reflexivity|].
  destruct (strip_prefix "false" s); [intros H; injection H as <- _; reflexivity|].
  destruct (strip_prefix "null" s); [intros H; injection H as <- _; reflexivity|].
  discriminate.
Qed.

(** Whatever the parser returns lists the keys of its objects as the
    runtime does: no key twice, array indices first. *)
Lemma json_wf (fuel : nat) :
  (forall s v r, json_value fuel s = Some (v, r) -> wf_value v = true) /\
  (forall s acc v r,
      forallb wf_value acc = true ->
      json_elements fuel s acc = Some (v, r) -> wf_value v = true) /\
  (forall s acc v r,
      keys_wf (keys acc) = true ->
      forallb (fun kv => wf_value (snd kv)) acc = true ->
      json_members fuel s acc = Some (v, r) -> wf_value v = true).
Proof.
  induction fuel as [|f [IHv [IHe IHm]]].
  - repeat split; intros; discriminate.
  - split; [|split].
    + intros s v r H. cbn [json_value] in H.
      destruct (skip_ws s) as [|c r0]; [discriminate|].
      destruct (Ascii.eqb c "{").
      { destruct (expect "}" r0).
        - injection H as <- _. reflexivity.
        - now apply (IHm r0 [] v r). }
      destruct (Ascii.eqb c "[").
      { destruct (expect "]" r0).
        - injection H as <- _. reflexivity.
        - now apply (IHe r0 [] v r). }
      destruct (Ascii.eqb c DQUOTE).
      { destruct (json_string_body r0 EmptyString) as [[str r']|]; [|discriminate].
        injection H as <- _. reflexivity. }
      destruct (json_literal (String c r0)) as [[lv lr]|] eqn:Hl.
      { injection H as <- _. now apply (json_literal_wf _ _ _ Hl). }
      destruct (json_number (String c r0)) as [[x r']|]; [|discriminate].
      injection H as <- _. reflexivity.
    + intros s acc v r Hacc H. cbn [json_elements] in H.
      destruct (json_value f s) as [[v0 r0]|] eqn:Hv; [|discriminate].
      pose proof (IHv _ _ _ Hv) as Hv0.
      destruct (expect "," r0).
      { apply (IHe _ _ _ _ (forallb_snoc _ _ _ Hacc Hv0) H). }
      destruct (expect "]" r0); [|discriminate].
      injection H as <- _. cbn [wf_value]. now apply forallb_snoc.
    + intros s acc v r Hk Hacc H. cbn [json_members] in H.
      destruct (expect DQUOTE s) as [r0|]; [|discriminate].
      destruct (json_string_body r0 EmptyString) as [[k r1]|]; [|discriminate].
      destruct (expect ":" r1) as [r2|]; [|discriminate].
      destruct (json_value f r2) as [[v0 r3]|] eqn:Hv; [|discriminate].
      pose proof (IHv _ _ _ Hv) as Hv0.
      destruct (expect "," r3).
      { apply (IHm _ _ _ _ (keys_wf_obj_set acc k v0 Hk)
                 (obj_set_values_wf acc k v0 Hacc Hv0) H). }
      destruct (expect "}" r3); [|discriminate].
      injection H as <- _. cbn [wf_value].
      change (map fst (obj_set acc k v0)) with (keys (obj_set acc k v0)).
      rewrite (keys_wf_obj_set acc k v0 Hk). now apply obj_set_values_wf.
Qed.

Lemma JSON_parse_wf (s : string) (v : Value) :
  JSON_parse s = Some v -> wf_value v = true.
Proof.
  unfold JSON_parse.
  destruct (json_value (2 * String.length s + 2) s) as [[v0 r]|] eqn:H; [|discriminate].
  destruct (skip_ws r); [|discriminate].
  intros E. injection E as <-. exact (proj1 (json_wf _) _ _ _ H).
Qed.
